(** * conp_to_nidm_terms: a shallow embedding of [functions.py]

    The development follows [scripts/conp_to_nidm_terms/functions.py]:
    the Python string primitives the script relies on, its JSON values,
    the external lookup [get_api_response], the collector
    [collect_values], the duplicate detector [find_duplicates] and the
    term-file generator [generate_jsonld_files].

    Text is modelled over the ASCII alphabet: a Python [str] is a Rocq
    [string], and the case and classification primitives below are the
    ASCII fragments of [str.lower], [str.upper], [str.title] and
    [str.isalnum]; code points above 127 are left unchanged by the case
    mappings and are not alphanumeric. *)

From Stdlib Require Import ZArith Ascii String List Bool Lia DecimalString.
From stdpp Require Import base option list gmap gmultiset strings fin_maps.

Local Open Scope string_scope.
Local Open Scope list_scope.

#[local] Set Warnings "-register-all,-clear-no-such-hyp".

(** ** Python string primitives *)

Module PyStr.

Definition code (c : ascii) : N := N_of_ascii c.

Definition between (lo hi : N) (c : ascii) : bool :=
  ((lo <=? code c) && (code c <=? hi))%N.

Definition isupper_char : ascii → bool := between 65 90.
Definition islower_char : ascii → bool := between 97 122.
Definition isdigit_char : ascii → bool := between 48 57.

(** [x.isalnum()] for a one-character string [x]. *)
Definition isalnum_char (c : ascii) : bool :=
  isupper_char c || islower_char c || isdigit_char c.

Definition lower_char (c : ascii) : ascii :=
  if isupper_char c then ascii_of_N (code c + 32) else c.

Definition upper_char (c : ascii) : ascii :=
  if islower_char c then ascii_of_N (code c - 32) else c.

Fixpoint smap (f : ascii → ascii) (s : string) : string :=
  match s with
  | EmptyString => EmptyString
  | String c s' => String (f c) (smap f s')
  end.

Fixpoint sfilter (p : ascii → bool) (s : string) : string :=
  match s with
  | EmptyString => EmptyString
  | String c s' => if p c then String c (sfilter p s') else sfilter p s'
  end.

(** [s.lower()] and [s.upper()]. *)
Definition lower : string → string := smap lower_char.
Definition upper : string → string := smap upper_char.

(** [s.title()]: CPython walks the string with a flag telling whether
    the previous character was cased; an uncased character resets it. *)
Fixpoint title_go (previous_is_cased : bool) (s : string) : string :=
  match s with
  | EmptyString => EmptyString
  | String c s' =>
      if islower_char c then
        String (if previous_is_cased then c else upper_char c) (title_go true s')
      else if isupper_char c then
        String (if previous_is_cased then lower_char c else c) (title_go true s')
      else String c (title_go false s')
  end.

Definition title : string → string := title_go false.

(** [s.replace(" ", "")]: every space is dropped. *)
Definition is_space_char (c : ascii) : bool := (code c =? 32)%N.
Definition remove_spaces : string → string :=
  sfilter (fun c => negb (is_space_char c)).

(** ["".join(x for x in s if x.isalnum())]. *)
Definition keep_alnum : string → string := sfilter isalnum_char.

(** [s.startswith(p)]. *)
Fixpoint startswith (p s : string) : bool :=
  match p, s with
  | EmptyString, _ => true
  | String _ _, EmptyString => false
  | String a p', String b s' => bool_decide (a = b) && startswith p' s'
  end.

(** [needle in hay] on strings: substring test. *)
Fixpoint contains (needle hay : string) : bool :=
  startswith needle hay ||
  match hay with
  | EmptyString => false
  | String _ hay' => contains needle hay'
  end.

Fixpoint endswith_char (c : ascii) (s : string) : bool :=
  match s with
  | EmptyString => false
  | String a EmptyString => bool_decide (a = c)
  | String _ s' => endswith_char c s'
  end.

Fixpoint mem_char (c : ascii) (s : string) : bool :=
  match s with
  | EmptyString => false
  | String a s' => bool_decide (a = c) || mem_char c s'
  end.

Fixpoint concat_with (sep : string) (l : list string) : string :=
  match l with
  | [] => ""
  | [x] => x
  | x :: l' => x +:+ sep +:+ concat_with sep l'
  end.

(** [str(n)] for a non-negative integer. *)
Definition str_of_nat (n : nat) : string :=
  NilZero.string_of_uint (Nat.to_uint n).

(** The double quote, code 34. *)
Definition dquote : ascii := ascii_of_N 34.

Definition hex_digit (n : N) : ascii :=
  if (n <? 10)%N then ascii_of_N (48 + n) else ascii_of_N (87 + n).

(** Two lower-case hexadecimal digits of a code below 256. *)
Definition hex2 (c : ascii) : string :=
  String (hex_digit (code c / 16)) (String (hex_digit (code c mod 16)) "").

(** [repr(s)] for a string: single quotes unless the text holds a
    single quote and no double quote; backslash, the chosen quote and
    the control characters are escaped. *)
Definition repr_quote (s : string) : ascii :=
  if mem_char "'"%char s && negb (mem_char dquote s)
  then dquote else "'"%char.

Definition repr_char (q c : ascii) : string :=
  if bool_decide (c = "\"%char) then "\\"
  else if bool_decide (c = q) then String "\"%char (String q "")
  else if (code c =? 9)%N then "\t"
  else if (code c =? 10)%N then "\n"
  else if (code c =? 13)%N then "\r"
  else if (code c <? 32)%N || (code c =? 127)%N then "\x" +:+ hex2 c
  else String c "".

Fixpoint repr_body (q : ascii) (s : string) : string :=
  match s with
  | EmptyString => ""
  | String c s' => repr_char q c +:+ repr_body q s'
  end.

Definition repr (s : string) : string :=
  let q := repr_quote s in
  String q (repr_body q s) +:+ String q "".

(** [repr(l)], equally [f"{l}"], for a list of strings. *)
Definition repr_list (l : list string) : string :=
  "[" +:+ concat_with ", " (map repr l) +:+ "]".

End PyStr.

(** ** File names of the generated descriptors (line 176) *)

Definition filename (term : string) : string :=
  PyStr.keep_alnum (PyStr.remove_spaces (PyStr.title term)).

(** ** JSON documents *)

(** The documents of the script hold text, lists and objects; of the JSON
    numbers only the integers are kept. *)
Inductive json :=
| JNull
| JBool (b : bool)
| JInt (z : Z)
| JStr (s : string)
| JArr (items : list json)
| JObj (members : list (string * json)).

(** A JSON object read by [json.load] is a [dict]: an association list in
    insertion order. *)
Abbreviation dict := (list (string * json)).

(** [d[key]] read as [d.get(key)]. *)
Fixpoint dict_get (key : string) (d : dict) : option json :=
  match d with
  | [] => None
  | (k, v) :: d' => if decide (k = key) then Some v else dict_get key d'
  end.

(** [d[key] = v]: an existing key keeps its place, a new one goes last. *)
Fixpoint dict_set (key : string) (v : json) (d : dict) : dict :=
  match d with
  | [] => [(key, v)]
  | (k, x) :: d' =>
      if decide (k = key) then (k, v) :: d' else (k, x) :: dict_set key v d'
  end.

Module Json.

Definition newline : ascii := ascii_of_N 10.

Fixpoint spaces (n : nat) : string :=
  match n with
  | O => ""
  | S n' => String " "%char (spaces n')
  end.

(** The line break and indentation [json.dump(..., indent=4)] puts
    before an item nested [level] deep. *)
Definition newline_indent (level : nat) : string :=
  String newline (spaces (4 * level)).

Definition hex4 (c : ascii) : string := "00" +:+ PyStr.hex2 c.

(** Escapes of [json.dump(..., ensure_ascii=False)]. *)
Definition escape_char (c : ascii) : string :=
  if bool_decide (c = "\"%char) then "\\"
  else if bool_decide (c = PyStr.dquote) then String "\"%char (String PyStr.dquote "")
  else if (PyStr.code c =? 8)%N then "\b"
  else if (PyStr.code c =? 12)%N then "\f"
  else if (PyStr.code c =? 10)%N then "\n"
  else if (PyStr.code c =? 13)%N then "\r"
  else if (PyStr.code c =? 9)%N then "\t"
  else if (PyStr.code c <? 32)%N then "\u" +:+ hex4 c
  else String c "".

Fixpoint escape (s : string) : string :=
  match s with
  | EmptyString => ""
  | String c s' => escape_char c +:+ escape s'
  end.

Definition encode_str (s : string) : string :=
  String PyStr.dquote (escape s) +:+ String PyStr.dquote "".

Definition str_of_Z (z : Z) : string := NilZero.string_of_int (Z.to_int z).

Fixpoint dumps_at (level : nat) (v : json) : string :=
  match v with
  | JNull => "null"
  | JBool true => "true"
  | JBool false => "false"
  | JInt z => str_of_Z z
  | JStr s => encode_str s
  | JArr [] => "[]"
  | JArr items =>
      "[" +:+ newline_indent (S level)
      +:+ PyStr.concat_with ("," +:+ newline_indent (S level))
            (map (dumps_at (S level)) items)
      +:+ newline_indent level +:+ "]"
  | JObj [] => "{}"
  | JObj members =>
      "{" +:+ newline_indent (S level)
      +:+ PyStr.concat_with ("," +:+ newline_indent (S level))
            (map (fun kv => let (k, x) := kv : string * json in
                            encode_str k +:+ ": " +:+ dumps_at (S level) x)
                 members)
      +:+ newline_indent level +:+ "}"
  end.

(** The text [json.dump(doc, file, indent=4, ensure_ascii=False)] writes. *)
Definition dump (doc : json) : string := dumps_at 0 doc.

End Json.

(** ** Exceptions, results and the state of a run *)

Inductive exn :=
| Exception (msg : string)          (* raised by [_raise_error] *)
| KeyError (key : string)           (* a missing key of a JSON object *)
| JSONDecodeError (path : string)   (* [json.load] on a malformed file *)
| ConnectionError (msg : string).   (* a transport failure of [requests.get];
                                       in [requests] it is no [HTTPError] *)

Inductive result (A : Type) :=
| Ok (a : A)
| Raise (e : exn).
Arguments Ok {A} a.
Arguments Raise {A} e.

#[global] Instance result_ret : MRet result := fun A a => Ok a.

#[global] Instance result_bind : MBind result := fun A B k r =>
  match r with
  | Ok a => k a
  | Raise e => Raise e
  end.

Inductive level := INFO | ERROR.

(** What [os.path.exists] can find at a path. *)
Inductive node :=
| Dir
| File (content : string).

(** The part of the world a run changes: the file system below
    [CURRENT_WORKING_DIR], the records handed to [logger], the lines
    printed, and how many lookups have been made so far. *)
Record world := World {
  fs : gmap string node;
  log : list (level * string);
  stdout : list string;
  lookups : nat
}.

(** Computations that read and change the world and may raise. *)
Definition M (A : Type) : Type := world → result A * world.

#[global] Instance M_ret : MRet M := fun A a w => (Ok a, w).

#[global] Instance M_bind : MBind M := fun A B k m w =>
  match m w with
  | (Ok a, w') => k a w'
  | (Raise e, w') => (Raise e, w')
  end.

Definition raise {A} (e : exn) : M A := fun w => (Raise e, w).

(** [for x in l: body], the local variables the body updates being
    threaded through as [acc]. *)
Fixpoint for_ {A S} (l : list A) (acc : S) (body : S → A → M S) : M S :=
  match l with
  | [] => mret acc
  | x :: l' => acc' ← body acc x; for_ l' acc' body
  end.

Definition logger (lv : level) (msg : string) : M unit :=
  fun w => (Ok tt, World (fs w) (log w ++ [(lv, msg)]) (stdout w) (lookups w)).

Definition print (line : string) : M unit :=
  fun w => (Ok tt, World (fs w) (log w) (stdout w ++ [line]) (lookups w)).

(** [os.path.exists(p)] *)
Definition path_exists (p : string) : M bool :=
  fun w => (Ok (bool_decide (is_Some (fs w !! p))), w).

(** [os.makedirs(p)], called only when nothing exists at [p]. The parent
    of [p] is taken to exist, as the directory of the script does for
    the directory of a property: [p] alone is created. What the
    operating system may refuse is not modelled. *)
Definition makedirs (p : string) : M unit :=
  fun w => (Ok tt, World (<[p := Dir]> (fs w)) (log w) (stdout w) (lookups w)).

(** [with open(p, "w") as f: f.write(content)]: creates or overwrites.
    What the operating system may refuse is not modelled. *)
Definition write_file (p content : string) : M unit :=
  fun w => (Ok tt, World (<[p := File content]> (fs w)) (log w) (stdout w) (lookups w)).

(** [os.path.join(a, b)] of [posixpath]. *)
Definition path_join (a b : string) : string :=
  if PyStr.startswith "/" b then b
  else if bool_decide (a = "") || PyStr.endswith_char "/"%char a then a +:+ b
  else a +:+ "/" +:+ b.

(** ** The outside of the program *)

(** [api_key.json] as [json.load] returns it. *)
Record credentials := Credentials {
  api_key : string;
  _comment : string
}.

(** An element of [response["data"]["existing_ids"]]: an object that may
    or may not carry the keys [curie] and [iri]. *)
Record existing_id := ExistingId {
  curie : option string;
  iri : option string
}.

(** What the request of line 42 and the status check of line 43 come to. *)
Inductive http_outcome :=
| Transport_error (e : string)            (* [requests.get] raises: no answer *)
| Status_error (e : string)               (* [raise_for_status] raises [HTTPError] *)
| Response (existing_ids : list existing_id).  (* a standard 2xx body *)

(** Everything the script reads and does not own: the directory of the
    script, the template loaded at import, the credentials file as it
    stands when it is opened for the n-th time, and the answer of the
    service to the n-th request. *)
Record environment := Environment {
  CURRENT_WORKING_DIR : string;
  JSONLD_TEMPLATE : dict;
  api_key_file : nat → credentials;
  requests_get : nat → string → http_outcome
}.

Definition NIF_API_URL : string := "https://scicrunch.org/api/1/ilx/search/term/".

Definition no_match_found : string := "no match found".

(** The test of line 50: [ "curie" in i and "ILX:".upper() in i["curie"] ]. *)
Definition has_ilx_curie (i : existing_id) : bool :=
  match curie i with
  | Some c => PyStr.contains (PyStr.upper "ILX:") c
  | None => false
  end.

(** The loop of lines 48-50, [match_] being the value of [match] so far. *)
Fixpoint select_match (ids : list existing_id) (match_ : string) : result string :=
  match ids with
  | [] => Ok match_
  | i :: ids' =>
      if has_ilx_curie i then
        match iri i with
        | Some u => select_match ids' u
        | None => Raise (KeyError "iri")
        end
      else select_match ids' match_
  end.

(** Lines 44-53: what is returned for a decoded response. *)
Definition response_match (ids : list existing_id) : result string :=
  match ids with
  | [] => Ok no_match_found
  | _ :: _ => select_match ids ""
  end.

Definition lift_result {A} (r : result A) : M A := fun w => (r, w).

(** The values a function of the script hands back. *)
Inductive value :=
| VNone
| VInt (z : Z)
| VStr (s : string).

Definition json_of_value (v : value) : json :=
  match v with
  | VNone => JNull
  | VInt z => JInt z
  | VStr s => JStr s
  end.

(** ** The report *)

Record report_entry := ReportEntry {
  count : Z;
  values : list string
}.

(** The report [dict], in insertion order. *)
Abbreviation report := (list (string * report_entry)).

Fixpoint report_get (key : string) (r : report) : option report_entry :=
  match r with
  | [] => None
  | (k, e) :: r' => if decide (k = key) then Some e else report_get key r'
  end.

Section Program.

Variable env : environment.

(** The call is numbered: it is the [n]-th one of the run. *)
Definition next_lookup : M nat := fun w =>
  (Ok (lookups w), World (fs w) (log w) (stdout w) (S (lookups w))).

(** Lines 36-38: the credentials file is opened inside the call. *)
Definition read_api_key (n : nat) : M string :=
  let api_key_json := api_key_file env n in
  if decide (api_key api_key_json = "")
  then raise (Exception (_comment api_key_json))
  else mret (api_key api_key_json).

(** [get_api_response(term)]. A Python function that runs off its end
    (line 56) returns [None]. *)
Definition get_api_response (term : string) : M value :=
  n ← next_lookup;
  key ← read_api_key n;
  let api_key := "?key=" +:+ key in
  match requests_get env n (NIF_API_URL +:+ term +:+ api_key) with
  | Transport_error e => raise (ConnectionError e)
  | Status_error e => logger ERROR ("Error: " +:+ e);; mret VNone
  | Response existing_ids =>
      match_ ← lift_result (response_match existing_ids);
      mret (VStr match_)
  end.

(** Lines 168-172: the document written for [term]. *)
Definition describe (use_api : bool) (term : string) : M dict :=
  let jsonld_description := JSONLD_TEMPLATE env in
  let jsonld_description :=
    dict_set "label" (JStr (PyStr.lower term)) jsonld_description in
  if use_api then
    same_as ← get_api_response (PyStr.lower term);
    mret (dict_set "sameAs" (json_of_value same_as) jsonld_description)
  else mret jsonld_description.

Definition term_directory (key : string) : string :=
  path_join (CURRENT_WORKING_DIR env) key.

(** The path of line 178. *)
Definition term_path (key term : string) : string :=
  path_join (term_directory key) (filename term) +:+ ".jsonld".

(** The body of the inner loop, lines 167-179. *)
Definition generate_term (use_api : bool) (key : string)
    (terms_counter : gmultiset string) (term : string) : M (gmultiset string) :=
  let terms_counter := {[+ PyStr.lower term +]} ⊎ terms_counter in
  jsonld_description ← describe use_api term;
  present ← path_exists (term_directory key);
  (if present : bool then mret tt else makedirs (term_directory key));;
  write_file (term_path key term) (Json.dump (JObj jsonld_description));;
  mret terms_counter.

(** The loop of line 166 over the terms of one property. *)
Definition generate_property (use_api : bool) (terms_counter : gmultiset string)
    (item : string * report_entry) : M (gmultiset string) :=
  for_ (values item.2) terms_counter (generate_term use_api item.1).

(** [generate_jsonld_files(report, use_api)] *)
Definition generate_jsonld_files (r : report) (use_api : bool) : M value :=
  terms_counter ← for_ r ∅ (generate_property use_api);
  print ("JSON-LD files created: " +:+ PyStr.str_of_nat (size (dom terms_counter)));;
  mret VNone.

End Program.


(** ** The duplicate detector *)

Definition PROPERTIES : list string :=
  ["privacy"; "licenses"; "types"; "is_about"; "formats"; "keywords"].

(** Lines 143-146 on the [dict] [normilized_terms], kept in insertion
    order: [term] joins the list filed under [k], or opens one. *)
Fixpoint file_term (k term : string) (d : list (string * list string))
    : list (string * list string) :=
  match d with
  | [] => [(k, [term])]
  | (k', v) :: d' =>
      if decide (k' = k) then (k', v ++ [term]) :: d'
      else (k', v) :: file_term k term d'
  end.

(** The loop of lines 142-146. *)
Definition normalize (terms : list string) : list (string * list string) :=
  fold_left (fun d term => file_term (PyStr.lower term) term d) terms [].

(** Line 153. *)
Definition duplicate_message (key : string) (v : list string) : string :=
  PyStr.title key +:+ " duplicate terms: " +:+ PyStr.repr_list v.

(** Lines 151-153: the messages of one property. *)
Definition duplicate_messages (key : string) (d : list (string * list string))
    : list string :=
  map (fun kv => duplicate_message key kv.2)
      (filter (fun kv => 1 < List.length kv.2) d).

(** The body of the loop of line 138. *)
Definition find_duplicates_in (r : report) (errors : list string) (key : string)
    : M (list string) :=
  match report_get key r with
  | Some entry =>
      let terms := values entry in
      let normilized_terms := normalize terms in
      if decide (count entry = Z.of_nat (List.length normilized_terms)) then
        logger INFO ("All terms are unique in " +:+ key +:+ ".");;
        mret errors
      else mret (errors ++ duplicate_messages key normilized_terms)
  | None => mret errors
  end.

(** [find_duplicates(report)] *)
Definition find_duplicates (r : report) : M (list string) :=
  for_ PROPERTIES [] (find_duplicates_in r).

(** *** The detector with its built-ins left open

    [find_duplicates] calls two built-ins on the values of the report:
    [str.lower] and the [repr] of a list. Here both are parameters, so
    that what is proved holds for Python's own, on any text;
    [find_duplicates] above is the instance at the ASCII primitives of
    [PyStr]. *)

Definition normalize_by (lower : string → string) (terms : list string)
    : list (string * list string) :=
  fold_left (fun d term => file_term (lower term) term d) terms [].

Definition duplicate_message_by (repr_list : list string → string)
    (key : string) (v : list string) : string :=
  PyStr.title key +:+ " duplicate terms: " +:+ repr_list v.

Definition find_duplicates_in_by (lower : string → string)
    (repr_list : list string → string) (r : report) (errors : list string)
    (key : string) : M (list string) :=
  match report_get key r with
  | Some entry =>
      let terms := values entry in
      let normilized_terms := normalize_by lower terms in
      if decide (count entry = Z.of_nat (List.length normilized_terms)) then
        logger INFO ("All terms are unique in " +:+ key +:+ ".");;
        mret errors
      else
        mret (errors ++ map (fun kv => duplicate_message_by repr_list key kv.2)
                            (filter (fun kv => 1 < List.length kv.2) normilized_terms))
  | None => mret errors
  end.

Definition find_duplicates_by (lower : string → string)
    (repr_list : list string → string) (r : report) : M (list string) :=
  for_ PROPERTIES [] (find_duplicates_in_by lower repr_list r).

(** ** The collector *)

(** The DATS descriptor, field by field as [collect_values] reads it; a
    key that may be missing from an object is an [option]. *)

(** An object read through its [value] key. *)
Record annotation := Annotation { annotation_value : option string }.

(** An element of [types]: up to four datatype schemas. *)
Record data_type := DataType {
  information : option annotation;
  method : option annotation;
  platform : option annotation;
  instrument : option annotation
}.

Record license := License { license_name : option string }.

Record about := About {
  about_name : option string;
  about_value : option string
}.

Record distribution := Distribution { formats : option (list string) }.

Record dats := Dats {
  privacy : option string;
  types : option (list data_type);
  licenses : option (list license);
  isAbout : option (list about);
  distributions : option (list distribution);
  keywords : option (list annotation)
}.

(** What [json.load] makes of a file. *)
Inductive contents :=
| Malformed
| Descriptor (d : dats).

(** A directory: its files and its subdirectories, by name. *)
Inductive tree :=
| Tree (files : list (string * contents)) (subdirs : list (string * tree)).

(** [os.walk(top)]: top-down, one triple per directory. *)
Fixpoint walk (top : string) (t : tree)
    : list (string * list string * list (string * contents)) :=
  match t with
  | Tree files subdirs =>
      (top, map fst subdirs, files)
      :: flat_map (fun sub => let (name, t') := sub : string * tree in
                              walk (path_join top name) t') subdirs
  end.

(** [d[key]] on an object that may lack [key]. *)
Definition item {A} (key : string) (field : option A) : result A :=
  match field with
  | Some a => Ok a
  | None => Raise (KeyError key)
  end.

(** [for x in l], the loop body being able to raise. *)
Fixpoint each {A S} (l : list A) (acc : S) (body : S → A → result S) : result S :=
  match l with
  | [] => Ok acc
  | x :: l' => acc' ← body acc x; each l' acc' body
  end.

(** The keyword arguments of [collect_values]. *)
Record selection := Selection {
  sel_privacy : bool;
  sel_types : bool;
  sel_licenses : bool;
  sel_is_about : bool;
  sel_formats : bool;
  sel_keywords : bool
}.

(** The six sets and the counter of lines 68-75. *)
Record collected := Collected {
  privacy_values : gset string;
  licenses_values : gset string;
  types_datatype_values : gset string;
  is_about_values : gset string;
  distributions_formats : gset string;
  keywords_values : gset string;
  dats_files_count : nat
}.

Definition collected_empty : collected := Collected ∅ ∅ ∅ ∅ ∅ ∅ 0.

(** Line 94: the values of the schemas present in [typ], as a set. *)
Definition datatype_values (typ : data_type) : result (gset string) :=
  each [("information", information typ); ("method", method typ);
        ("platform", platform typ); ("instrument", instrument typ)] ∅
    (fun acc t =>
       match t.2 with
       | Some schema => v ← item "value" (annotation_value schema); mret ({[ v ]} ∪ acc)
       | None => mret acc
       end).

(** [set(f(x) for x in l)], [f] reading a key. *)
Definition set_of {A} (f : A → result string) (l : list A) : result (gset string) :=
  each l ∅ (fun acc x => v ← f x; mret ({[ v ]} ∪ acc)).

Section Collector.

Variable sel : selection.

(** Lines 86-87. *)
Definition collect_privacy (d : dats) (c : gset string) : gset string :=
  if sel_privacy sel then
    match privacy d with
    | Some p => {[ p ]} ∪ c
    | None => c
    end
  else c.

(** Lines 89-94. *)
Definition collect_types (d : dats) (c : gset string) : result (gset string) :=
  if sel_types sel then
    l ← item "types" (types d);
    each l c (fun acc typ => vs ← datatype_values typ; mret (acc ∪ vs))
  else mret c.

(** Lines 96-98. *)
Definition collect_licenses (d : dats) (c : gset string) : result (gset string) :=
  if sel_licenses sel then
    l ← item "licenses" (licenses d);
    vs ← set_of (fun x => item "name" (license_name x)) l;
    mret (c ∪ vs)
  else mret c.

(** Lines 101-108. *)
Definition collect_is_about (d : dats) (c : gset string) : gset string :=
  if sel_is_about sel then
    match isAbout d with
    | Some l =>
        fold_left (fun acc each_is_about =>
                     match about_name each_is_about, about_value each_is_about with
                     | Some n, _ => {[ n ]} ∪ acc
                     | None, Some v => {[ v ]} ∪ acc
                     | None, None => acc
                     end) l c
    | None => c
    end
  else c.

(** Lines 111-114. *)
Definition collect_formats (d : dats) (c : gset string) : result (gset string) :=
  if sel_formats sel then
    l ← item "distributions" (distributions d);
    mret (fold_left (fun acc dist =>
                       match formats dist with
                       | Some fs => acc ∪ list_to_set fs
                       | None => acc
                       end) l c)
  else mret c.

(** Lines 116-117. *)
Definition collect_keywords (d : dats) (c : gset string) : result (gset string) :=
  if sel_keywords sel then
    l ← item "keywords" (keywords d);
    vs ← set_of (fun k => item "value" (annotation_value k)) l;
    mret (c ∪ vs)
  else mret c.

(** [dict.get]-like lookup of the file named [name] in a directory. *)
Fixpoint file_named (name : string) (files : list (string * contents))
    : option contents :=
  match files with
  | [] => None
  | (n, c) :: files' => if decide (n = name) then Some c else file_named name files'
  end.

(** Lines 79-117: one step of the walk. *)
Definition visit (acc : collected)
    (step : string * list string * list (string * contents)) : result collected :=
  let '(path, directories, files) := step in
  match file_named "DATS.json" files with
  | Some json_file =>
      let dats_files_count := S (dats_files_count acc) in
      let dats_file := path_join path "DATS.json" in
      match json_file with
      | Malformed => Raise (JSONDecodeError dats_file)
      | Descriptor dats_data =>
          let pv := collect_privacy dats_data (privacy_values acc) in
          tv ← collect_types dats_data (types_datatype_values acc);
          lv ← collect_licenses dats_data (licenses_values acc);
          let av := collect_is_about dats_data (is_about_values acc) in
          fv ← collect_formats dats_data (distributions_formats acc);
          kv ← collect_keywords dats_data (keywords_values acc);
          mret (Collected pv lv tv av fv kv dats_files_count)
      end
  | None => mret acc
  end.

(** Lines 119-127: only the non-empty sets make it into the report. *)
Definition build_report (named : list (string * gset string)) : report :=
  flat_map (fun kv =>
              if decide (kv.2 = ∅) then []
              else [(kv.1, ReportEntry (Z.of_nat (size kv.2)) (elements kv.2))])
           named.

(** [collect_values(...)] over the tree rooted at [PROJECTS]. *)
Definition collect_values (PROJECTS : string) (projects : tree)
    : result (report * nat) :=
  c ← each (walk PROJECTS projects) collected_empty visit;
  mret (build_report
          [("privacy", privacy_values c); ("licenses", licenses_values c);
           ("types", types_datatype_values c); ("is_about", is_about_values c);
           ("formats", distributions_formats c); ("keywords", keywords_values c)],
        dats_files_count c).

End Collector.

(** ** Reference notions the properties are stated against *)

Module Reference.

(** Every character of [s] satisfies [p]. *)
Fixpoint sforall (p : ascii → bool) (s : string) : bool :=
  match s with
  | EmptyString => true
  | String c s' => p c && sforall p s'
  end.

(** The curie names the InterLex prefix in whatever letter case. *)
Definition mentions_ilx (i : existing_id) : bool :=
  match curie i with
  | Some c => PyStr.contains (PyStr.lower "ILX:") (PyStr.lower c)
  | None => false
  end.

(** The lookup as the specification words it: the sentinel for an empty
    list, otherwise the [iri] of the first entry whose curie holds the
    prefix, letter case aside. [None] where the wording gives no value. *)
Definition first_match (ids : list existing_id) : option string :=
  match ids with
  | [] => Some no_match_found
  | _ :: _ => i ← head (filter (fun i => mentions_ilx i) ids); iri i
  end.

(** The [iri] of the last entry that names the prefix, [""] if none does. *)
Definition last_match (ids : list existing_id) : string :=
  match last (filter (fun i => mentions_ilx i) ids) with
  | Some i => default "" (iri i)
  | None => ""
  end.

(** The state a call of [get_api_response] leaves when it logs nothing. *)
Definition counted (w : world) : world :=
  World (fs w) (log w) (stdout w) (S (lookups w)).

(** The request a lookup of [term] sends when the key is [key]. *)
Definition lookup_url (term key : string) : string :=
  NIF_API_URL +:+ term +:+ "?key=" +:+ key.

(** All the terms of a report, property after property. *)
Definition all_terms (r : report) : list string :=
  flat_map (fun item => values item.2) r.

(** How many terms of the report differ once lower-cased. *)
Definition distinct_terms (r : report) : nat :=
  List.length (remove_dups (map PyStr.lower (all_terms r))).

(** The regular files of a file system. *)
Definition is_file (n : node) : bool :=
  match n with
  | File _ => true
  | Dir => false
  end.

Definition regular_files (m : gmap string node) : list string :=
  (filter (fun kv => is_file kv.2) (map_to_list m)).*1.

(** The elements of [l] in order of first occurrence. *)
Fixpoint distinct (l : list string) : list string :=
  match l with
  | [] => []
  | x :: l' => x :: filter (fun y => y ≠ x) (distinct l')
  end.

(** The terms spelled [k] once lower-cased, in their order. *)
Definition variants (terms : list string) (k : string) : list string :=
  filter (fun t => PyStr.lower t = k) terms.

(** The groups of two or more terms sharing a lower-cased form. *)
Definition collisions (terms : list string) : list (list string) :=
  filter (fun v => 1 < List.length v)
         (map (variants terms) (distinct (map PyStr.lower terms))).

(** The directories of a tree that hold a file named [DATS.json]. *)
Fixpoint count_dats (t : tree) : nat :=
  match t with
  | Tree files subdirs =>
      (if decide ("DATS.json" ∈ files.*1) then 1 else 0)
      + list_sum (map (fun sub => count_dats sub.2) subdirs)
  end.

(** The template with its label set, lines 168-169. *)
Definition label_doc (env : environment) (term : string) : dict :=
  dict_set "label" (JStr (PyStr.lower term)) (JSONLD_TEMPLATE env).

(** What lines 174-179 do to the file system for a document [doc]. *)
Definition stored (env : environment) (key term : string) (doc : dict)
    (m : gmap string node) : gmap string node :=
  <[term_path env key term := File (Json.dump (JObj doc))]>
    (if decide (is_Some (m !! term_directory env key)) then m
     else <[term_directory env key := Dir]> m).

(** A write of the generator: the directory it needs, the path it
    writes and what it puts there. *)
Record write := Write_ {
  write_dir : string;
  write_path : string;
  write_node : node
}.

(** Lines 174-179 on the file system. *)
Definition perform (m : gmap string node) (x : write) : gmap string node :=
  <[write_path x := write_node x]>
    (if decide (is_Some (m !! write_dir x)) then m
     else <[write_dir x := Dir]> m).

(** What the writes of [l] leave at [q], if one of them is to [q]. *)
Fixpoint final (q : string) (l : list write) : option node :=
  match l with
  | [] => None
  | x :: l' =>
      match final q l' with
      | Some v => Some v
      | None => if decide (write_path x = q) then Some (write_node x) else None
      end
  end.

(** The write the generator makes for [term] under [key] when it does
    not ask the service. *)
Definition write_of (env : environment) (key term : string) : write :=
  Write_ (term_directory env key) (term_path env key term)
         (File (Json.dump (JObj (label_doc env term)))).

(** The writes of a whole run without lookups, in order. *)
Definition writes_of (env : environment) (r : report) : list write :=
  flat_map (fun item => map (write_of env item.1) (values item.2)) r.

(** The sets of a finished walk, by the name they get in the report. *)
Definition named_sets (c : collected) : list (string * gset string) :=
  [("privacy", privacy_values c); ("licenses", licenses_values c);
   ("types", types_datatype_values c); ("is_about", is_about_values c);
   ("formats", distributions_formats c); ("keywords", keywords_values c)].

Fixpoint assoc {A} (key : string) (l : list (string * A)) : option A :=
  match l with
  | [] => None
  | (k, a) :: l' => if decide (k = key) then Some a else assoc key l'
  end.

(** The values found for a property. *)
Definition found (c : collected) (key : string) : gset string :=
  default ∅ (assoc key (named_sets c)).

(** A descriptor has what the selected properties require: the
    required keys, and in their elements the key that is read. *)
Definition has_value (a : annotation) : bool := bool_decide (is_Some (annotation_value a)).

Definition schema_ok (schema : option annotation) : bool :=
  match schema with
  | Some a => has_value a
  | None => true
  end.

Definition type_ok (typ : data_type) : bool :=
  schema_ok (information typ) && schema_ok (method typ)
  && schema_ok (platform typ) && schema_ok (instrument typ).

Definition required {A} (ok : A → bool) (field : option (list A)) : bool :=
  match field with
  | Some l => forallb ok l
  | None => false
  end.

Definition well_formed_dats (sel : selection) (d : dats) : bool :=
  implb (sel_types sel) (required type_ok (types d))
  && implb (sel_licenses sel)
       (required (fun x => bool_decide (is_Some (license_name x))) (licenses d))
  && implb (sel_formats sel) (required (fun _ => true) (distributions d))
  && implb (sel_keywords sel) (required has_value (keywords d)).

Definition well_formed_files (sel : selection) (files : list (string * contents)) : bool :=
  match file_named "DATS.json" files with
  | Some Malformed => false
  | Some (Descriptor d) => well_formed_dats sel d
  | None => true
  end.

(** 1 for a step of the walk whose directory holds a [DATS.json]. *)
Definition holds_dats (step : string * list string * list (string * contents)) : nat :=
  if decide ("DATS.json" ∈ step.2.*1) then 1 else 0.

(** Every [DATS.json] of the tree is a well-formed descriptor. *)
Fixpoint well_formed (sel : selection) (t : tree) : bool :=
  match t with
  | Tree files subdirs =>
      well_formed_files sel files
      && forallb (fun sub => well_formed sel sub.2) subdirs
  end.

(** The paths a run over [r] may create or write: the directory of each
    property and the file of each of its terms. *)
Definition touched (env : environment) (r : report) : list string :=
  flat_map (fun item => term_directory env item.1
                        :: map (term_path env item.1) (values item.2)) r.

(** The count of an entry is the number of lower-cased forms among its
    values: the test of line 148. *)
Definition counted_unique (e : report_entry) : bool :=
  (count e =? Z.of_nat (List.length (distinct (map PyStr.lower (values e)))))%Z.

(** The messages of one property, whatever its count. *)
Definition messages_of (r : report) (key : string) : list string :=
  match report_get key r with
  | Some e => if counted_unique e then []
              else map (duplicate_message key) (collisions (values e))
  | None => []
  end.

(** The records logged for one property. *)
Definition infos_of (r : report) (key : string) : list (level * string) :=
  match report_get key r with
  | Some e => if counted_unique e
              then [(INFO, "All terms are unique in " +:+ key +:+ ".")]
              else []
  | None => []
  end.

(** The exceptions a walk over descriptors can end in: a file that is
    not JSON, or a key that a selected property reads and that is
    missing. *)
Definition collector_error (e : exn) : bool :=
  match e with
  | JSONDecodeError _ => true
  | KeyError k =>
      bool_decide (k ∈ ["types"; "licenses"; "distributions"; "keywords";
                        "value"; "name"])
  | _ => false
  end.

(** The descriptors of a tree: the decoded [DATS.json] of each directory
    that has one, top-down. *)
Definition descriptor_in (files : list (string * contents)) : list dats :=
  match file_named "DATS.json" files with
  | Some (Descriptor d) => [d]
  | _ => []
  end.

Fixpoint tree_descriptors (t : tree) : list dats :=
  match t with
  | Tree files subdirs =>
      descriptor_in files ++ flat_map (fun sub => tree_descriptors sub.2) subdirs
  end.

(** What a descriptor says under each property. *)
Definition privacy_of (d : dats) : list string := option_list (privacy d).

Definition type_values (typ : data_type) : list string :=
  omap (fun schema => schema ≫= annotation_value)
       [information typ; method typ; platform typ; instrument typ].

Definition types_of (d : dats) : list string :=
  flat_map type_values (default [] (types d)).

Definition licenses_of (d : dats) : list string :=
  omap license_name (default [] (licenses d)).

(** The name of a subject if it has one, else its value. *)
Definition about_text (a : about) : list string :=
  match about_name a, about_value a with
  | Some n, _ => [n]
  | None, Some v => [v]
  | None, None => []
  end.

Definition about_of (d : dats) : list string :=
  flat_map about_text (default [] (isAbout d)).

Definition formats_of (d : dats) : list string :=
  flat_map (fun dist => default [] (formats dist)) (default [] (distributions d)).

Definition keywords_of (d : dats) : list string :=
  omap annotation_value (default [] (keywords d)).

Definition values_of (d : dats) (key : string) : list string :=
  default [] (assoc key [("privacy", privacy_of d); ("licenses", licenses_of d);
                         ("types", types_of d); ("is_about", about_of d);
                         ("formats", formats_of d); ("keywords", keywords_of d)]).

(** The keyword argument that governs a property. *)
Definition selected (sel : selection) (key : string) : bool :=
  default false (assoc key [("privacy", sel_privacy sel); ("licenses", sel_licenses sel);
                            ("types", sel_types sel); ("is_about", sel_is_about sel);
                            ("formats", sel_formats sel); ("keywords", sel_keywords sel)]).

(** The values of the selected property [key] in a list of descriptors. *)
Definition gathered (sel : selection) (key : string) (ds : list dats) : gset string :=
  if selected sel key then list_to_set (flat_map (fun d => values_of d key) ds) else ∅.

(** [s.isascii()]: every character has a code below 128. On such text
    the primitives of [PyStr] are those of Python. *)
Definition isascii (s : string) : bool :=
  sforall (fun c => (PyStr.code c <? 128)%N) s.

(** [variants] and [collisions] for any lower-casing. *)
Definition variants_by (lower : string → string) (terms : list string)
    (k : string) : list string :=
  filter (fun t => lower t = k) terms.

Definition collisions_by (lower : string → string) (terms : list string)
    : list (list string) :=
  filter (fun v => 1 < List.length v)
         (map (variants_by lower terms) (distinct (map lower terms))).

End Reference.

(** ** Concrete inputs *)

Module Inputs.

Definition two_interlex_ids : list existing_id :=
  [ExistingId (Some "ILX:0101431") (Some "http://uri.interlex.org/base/ilx_0101431");
   ExistingId (Some "ILX:0777777") (Some "http://uri.interlex.org/base/ilx_0777777")].

Definition lower_case_curie : list existing_id :=
  [ExistingId (Some "ilx:0101431") (Some "http://uri.interlex.org/base/ilx_0101431")].

Definition answering (ids : list existing_id) : environment :=
  Environment "/scripts" [("label", JStr "")]
    (fun _ => Credentials "secret" "Provide an API key")
    (fun _ _ => Response ids).

Definition initial : world := World ∅ [] [] 0.

Definition unrelated_ids : list existing_id :=
  [ExistingId (Some "UBERON:0000955") (Some "http://purl.obolibrary.org/obo/UBERON_0000955");
   ExistingId None (Some "http://example.org/brain")].

Definition failing_service : environment :=
  Environment "/scripts" [("label", JStr "")]
    (fun _ => Credentials "secret" "Provide an API key")
    (fun _ _ => Status_error "503 Server Error: Service Unavailable").

Definition unreachable_service : environment :=
  Environment "/scripts" [("label", JStr "")]
    (fun _ => Credentials "secret" "Provide an API key")
    (fun _ _ => Transport_error "Connection refused").

(** The key is there for the first call and gone for the later ones. *)
Definition key_withdrawn : environment :=
  Environment "/scripts" [("label", JStr "")]
    (fun n => match n with
              | O => Credentials "secret" "Provide an API key"
              | S _ => Credentials "" "Provide an API key"
              end)
    (fun _ _ => Response []).

(** The world once the descriptor of "open" is written. *)
Definition after_open : world :=
  World (<["/scripts/privacy/Open.jsonld" :=
             File (Json.dump (JObj [("label", JStr "open");
                                    ("sameAs", JStr "no match found")]))]>
           (<["/scripts/privacy" := Dir]> ∅))
        [] [] 1.

Definition privacy_open : report := [("privacy", ReportEntry 1 ["open"])].

Definition privacy_two : report := [("privacy", ReportEntry 2 ["open"; "private"])].

(** One term, spelled in two cases, under two properties. *)
Definition mri_twice : report :=
  [("types", ReportEntry 1 ["MRI"]); ("keywords", ReportEntry 1 ["mri"])].

Definition offline : environment :=
  Environment "/scripts" [("label", JStr "")]
    (fun _ => Credentials "" "Provide an API key")
    (fun _ _ => Transport_error "offline").

Definition three_spellings : report :=
  [("privacy", ReportEntry 3 ["Male"; "male"; "MALE"])].

Definition one_spelling : report := [("privacy", ReportEntry 1 ["Male"])].

Definition everything : selection := Selection true true true true true true.

Definition prevent_ad : dats :=
  Dats (Some "registered")
       (Some [DataType (Some (Annotation (Some "MRI"))) None None None])
       (Some [License (Some "CC BY-NC-SA")])
       (Some [About (Some "Alzheimer") None; About None (Some "Homo sapiens")])
       (Some [Distribution (Some ["NIfTI"; "nifti"]); Distribution None])
       (Some [Annotation (Some "brain"); Annotation (Some "brain")]).

(** Two projects with a descriptor, one without. *)
Definition projects : tree :=
  Tree [("README.md", Malformed)]
       [("prevent-ad", Tree [("DATS.json", Descriptor prevent_ad)]
                            [("sub", Tree [("DATS.json", Descriptor prevent_ad)] [])]);
        ("empty", Tree [] [])].

(** What the collector returns on [projects]. *)
Definition projects_report : report :=
  [("privacy", ReportEntry 1 ["registered"]);
   ("licenses", ReportEntry 1 ["CC BY-NC-SA"]);
   ("types", ReportEntry 1 ["MRI"]);
   ("is_about", ReportEntry 2 ["Alzheimer"; "Homo sapiens"]);
   ("formats", ReportEntry 2 ["nifti"; "NIfTI"]);
   ("keywords", ReportEntry 1 ["brain"])].

(** An InterLex entry that lacks its [iri]. *)
Definition interlex_without_iri : list existing_id :=
  [ExistingId (Some "UBERON:0000955") (Some "http://purl.obolibrary.org/obo/UBERON_0000955");
   ExistingId (Some "ILX:0101431") None].

(** The first request is answered, the later ones find no one. *)
Definition connection_lost : environment :=
  Environment "/scripts" [("label", JStr "")]
    (fun _ => Credentials "secret" "Provide an API key")
    (fun n _ => match n with
                | O => Response []
                | S _ => Transport_error "Connection refused"
                end).

(** Two licences that differ by a hyphen. *)
Definition hyphen_or_space : report :=
  [("licenses", ReportEntry 2 ["CC-BY"; "CC BY"])].

(** A file system that already holds a note. *)
Definition with_note : world :=
  World {[ "/scripts/notes.txt" := File "keep me" ]} [] [] 0.

(** A template with a context, a label and a [sameAs] of its own. *)
Definition with_template (ids : list existing_id) : environment :=
  Environment "/scripts"
    [("@context", JStr "https://schema.org/"); ("label", JStr "");
     ("sameAs", JStr "")]
    (fun _ => Credentials "secret" "Provide an API key")
    (fun _ _ => Response ids).

(** Two spellings, and a count that says one. *)
Definition miscounted : report := [("privacy", ReportEntry 1 ["Male"; "male"])].

(** A descriptor without [licenses]. *)
Definition unlicensed : dats :=
  Dats None (Some []) None None (Some []) (Some []).

Definition one_unlicensed_project : tree :=
  Tree [] [("p", Tree [("DATS.json", Descriptor unlicensed)] [])].

Definition no_keywords : selection := Selection true true true true true false.

(** The script directory, with a note in it. *)
Definition scripts_with_note : world :=
  World {[ "/scripts" := Dir; "/scripts/notes.txt" := File "keep me" ]} [] [] 0.

(** A lower-casing that knows one letter beyond ASCII: it folds the two
    bytes of a capital E with acute accent, 195 137, to those of the
    small one, 195 169, and is [PyStr.lower] otherwise. *)
Fixpoint lower_e_acute (s : string) : string :=
  match s with
  | String a (String b s' as rest) =>
      if ((PyStr.code a =? 195) && (PyStr.code b =? 137))%N
      then String a (String (ascii_of_N 169) (lower_e_acute s'))
      else String (PyStr.lower_char a) (lower_e_acute rest)
  | String a EmptyString => String (PyStr.lower_char a) EmptyString
  | EmptyString => EmptyString
  end.

Definition e_acute_capital : string := String (ascii_of_N 195) (String (ascii_of_N 137) "").
Definition e_acute_small : string := String (ascii_of_N 195) (String (ascii_of_N 169) "").

(** Two spellings of one accented letter, counted as two values. *)
Definition accented : report :=
  [("keywords", ReportEntry 2 [e_acute_capital; e_acute_small])].

End Inputs.

(** * Properties *)

Import Reference Inputs.

(** ** Running the loops *)

Section Loops.

Context {A S : Type}.
Implicit Types (l : list A) (body : S → A → M S).

Lemma for_nil acc body w : for_ [] acc body w = (Ok acc, w).
Proof. reflexivity. Qed.

Lemma for_cons x l acc body w :
  for_ (x :: l) acc body w =
  match body acc x w with
  | (Ok acc', w') => for_ l acc' body w'
  | (Raise e, w') => (Raise e, w')
  end.
Proof. reflexivity. Qed.

Lemma for_app l1 l2 acc body w :
  for_ (l1 ++ l2) acc body w =
  match for_ l1 acc body w with
  | (Ok acc', w') => for_ l2 acc' body w'
  | (Raise e, w') => (Raise e, w')
  end.
Proof.
  revert acc w. induction l1 as [|x l1 IH]; intros acc w; [done|].
  rewrite <- app_comm_cons, !for_cons.
  destruct (body acc x w) as [[acc'|e] w']; [apply IH|done].
Qed.

End Loops.

(** ** File names *)

Lemma sforall_sfilter p s : sforall p (PyStr.sfilter p s) = true.
Proof.
  induction s as [|c s IH]; [done|]. simpl.
  destruct (p c) eqn:Hc; [simpl; by rewrite Hc|done].
Qed.

Lemma sfilter_sfilter p q s :
  (∀ c, p c = true → q c = true) →
  PyStr.sfilter p (PyStr.sfilter q s) = PyStr.sfilter p s.
Proof.
  intros Hpq. induction s as [|c s IH]; [done|]. simpl.
  destruct (q c) eqn:Hq; simpl.
  - by rewrite IH.
  - destruct (p c) eqn:Hp; [|done]. apply Hpq in Hp. congruence.
Qed.

Lemma isalnum_not_space c :
  PyStr.isalnum_char c = true → negb (PyStr.is_space_char c) = true.
Proof.
  unfold PyStr.isalnum_char, PyStr.isupper_char, PyStr.islower_char,
    PyStr.isdigit_char, PyStr.between, PyStr.is_space_char.
  destruct (PyStr.code c =? 32)%N eqn:E; [|done].
  apply N.eqb_eq in E. rewrite E. done.
Qed.

(** C3 (as stated): the hyphen of "CC-BY 4.0" does not survive; the name
    the generator computes is not [Cc-By40]. *)
Lemma filename_cc_by_not_hyphenated : filename "CC-BY 4.0" ≠ "Cc-By40".
Proof. by vm_compute. Qed.

(** C3 (amended): the file name is the title-cased term with the spaces
    and every other non-alphanumeric character removed; "CC-BY 4.0"
    gives [CcBy40], hyphen, space and period all stripped. *)
Theorem filename_alnum_of_title :
  filename "CC-BY 4.0" = "CcBy40"
  ∧ (∀ term, filename term = PyStr.sfilter PyStr.isalnum_char (PyStr.title term))
  ∧ (∀ term, sforall PyStr.isalnum_char (filename term) = true).
Proof.
  split; [by vm_compute|]. split; intros term.
  - apply sfilter_sfilter, isalnum_not_space.
  - apply sforall_sfilter.
Qed.

(** ** The lookup *)

Section Lookup.

Variable env : environment.

(** One call, outcome by outcome. *)
Lemma get_api_response_unfold term w :
  get_api_response env term w =
  let api_key_json := api_key_file env (lookups w) in
  if decide (api_key api_key_json = "") then
    (Raise (Exception (_comment api_key_json)), counted w)
  else
    match requests_get env (lookups w) (lookup_url term (api_key api_key_json)) with
    | Transport_error e => (Raise (ConnectionError e), counted w)
    | Status_error e =>
        (Ok VNone,
         World (fs w) (log w ++ [(ERROR, "Error: " +:+ e)]) (stdout w) (S (lookups w)))
    | Response existing_ids =>
        match response_match existing_ids with
        | Ok match_ => (Ok (VStr match_), counted w)
        | Raise e => (Raise e, counted w)
        end
    end.
Proof.
  unfold get_api_response, read_api_key, lookup_url, mbind, M_bind, next_lookup.
  cbn. destruct (decide _) as [Hk|Hk]; [done|]. cbn.
  destruct (requests_get _ _ _) as [e|e|ids]; done.
Qed.

End Lookup.

(** The loop keeps the [iri] of the last entry that passes the test. *)
Lemma select_match_last ids match_ :
  Forall (fun i => has_ilx_curie i → is_Some (iri i)) ids →
  select_match ids match_ =
  Ok (match last (filter (fun i => has_ilx_curie i) ids) with
      | Some i => default "" (iri i)
      | None => match_
      end).
Proof.
  intros Hiri. revert match_.
  induction Hiri as [|i ids Hi _ IH]; intros match_; [done|].
  simpl. destruct (has_ilx_curie i) eqn:Hc.
  - destruct Hi as [u Hu]; [done|]. rewrite Hu, IH.
    rewrite filter_cons_True by (by apply Is_true_true). rewrite last_cons.
    destruct (last _); [done|]. by rewrite Hu.
  - rewrite IH. by rewrite filter_cons_False by (by apply Is_true_false).
Qed.

Lemma select_match_none ids match_ :
  Forall (fun i => has_ilx_curie i = false) ids →
  select_match ids match_ = Ok match_.
Proof.
  intros Hno. revert match_.
  induction Hno as [|i ids Hi _ IH]; intros match_; [done|].
  simpl. by rewrite Hi.
Qed.

Lemma filter_agree {A} (p q : A → bool) l :
  Forall (fun x => p x = q x) l →
  filter (fun x => p x) l = filter (fun x => q x) l.
Proof.
  induction 1 as [|x l Hx _ IH]; [done|].
  rewrite !filter_cons, IH. rewrite Hx. done.
Qed.

(** C1 (as stated): with two InterLex entries the wording selects the
    first one, the call returns the [iri] of the second; and a curie that
    spells the prefix in lower case is selected by the wording and passed
    over by the call, which returns the empty string. *)
Lemma get_api_response_not_first :
  (first_match two_interlex_ids = Some "http://uri.interlex.org/base/ilx_0101431"
   ∧ (get_api_response (answering two_interlex_ids) "mri" initial).1
     = Ok (VStr "http://uri.interlex.org/base/ilx_0777777"))
  ∧ (first_match lower_case_curie = Some "http://uri.interlex.org/base/ilx_0101431"
     ∧ (get_api_response (answering lower_case_curie) "mri" initial).1 = Ok (VStr "")).
Proof. by vm_compute. Qed.

(** C1 (amended): on a successful response whose curies spell the prefix
    as the code tests it and whose InterLex entries carry an [iri], the
    call returns the sentinel for an empty [existing_ids] and otherwise
    the [iri] of the last entry whose curie contains the prefix (the
    empty string when there is none). *)
Theorem get_api_response_last_match env term w ids :
  api_key (api_key_file env (lookups w)) ≠ "" →
  requests_get env (lookups w)
    (lookup_url term (api_key (api_key_file env (lookups w)))) = Response ids →
  Forall (fun i => mentions_ilx i = has_ilx_curie i) ids →
  Forall (fun i => mentions_ilx i → is_Some (iri i)) ids →
  get_api_response env term w =
  (Ok (VStr (match ids with [] => no_match_found | _ :: _ => last_match ids end)),
   counted w).
Proof.
  intros Hkey Hget Hcase Hiri.
  rewrite get_api_response_unfold. cbn zeta.
  rewrite decide_False by done. rewrite Hget.
  destruct ids as [|i ids]; [done|].
  unfold response_match, last_match.
  rewrite select_match_last.
  - by rewrite (filter_agree _ _ _ Hcase).
  - rewrite Forall_forall in Hcase, Hiri. apply Forall_forall.
    intros x Hx Hc. apply Hiri; [done|]. by rewrite (Hcase x Hx).
Qed.

(** With two InterLex entries the second one is returned. *)
Lemma get_api_response_last_match_witness :
  get_api_response (answering two_interlex_ids) "mri" initial
  = (Ok (VStr "http://uri.interlex.org/base/ilx_0777777"), counted initial).
Proof.
  apply (get_api_response_last_match (answering two_interlex_ids) "mri" initial
           two_interlex_ids).
  - by vm_compute.
  - reflexivity.
  - repeat constructor.
  - repeat constructor; intros _; by eexists.
Defined.

(** ** One term of the generator *)

Lemma dict_get_set key v d : dict_get key (dict_set key v d) = Some v.
Proof.
  induction d as [|[k x] d IH]; simpl.
  - by rewrite decide_True.
  - destruct (decide (k = key)) as [->|Hne]; simpl.
    + by rewrite decide_True.
    + by rewrite decide_False.
Qed.

Section Term.

Variable env : environment.

Lemma describe_unfold use_api term w :
  describe env use_api term w =
  if use_api then
    match get_api_response env (PyStr.lower term) w with
    | (Ok same_as, w') =>
        (Ok (dict_set "sameAs" (json_of_value same_as) (label_doc env term)), w')
    | (Raise e, w') => (Raise e, w')
    end
  else (Ok (label_doc env term), w).
Proof.
  unfold describe, label_doc. destruct use_api; [|done].
  unfold mbind, M_bind. by destruct (get_api_response _ _ _) as [[v|e] w'].
Qed.

Lemma generate_term_unfold use_api key terms_counter term w :
  generate_term env use_api key terms_counter term w =
  match describe env use_api term w with
  | (Ok doc, w') =>
      (Ok ({[+ PyStr.lower term +]} ⊎ terms_counter),
       World (stored env key term doc (fs w')) (log w') (stdout w') (lookups w'))
  | (Raise e, w') => (Raise e, w')
  end.
Proof.
  unfold generate_term, mbind, M_bind.
  destruct (describe _ _ _ _) as [[doc|e] w']; [|done].
  unfold path_exists, stored. cbn.
  destruct (decide (is_Some (fs w' !! term_directory env key))) as [Hd|Hd].
  - by rewrite bool_decide_eq_true_2.
  - by rewrite bool_decide_eq_false_2.
Qed.

Lemma stored_lookup key term doc m :
  stored env key term doc m !! term_path env key term
  = Some (File (Json.dump (JObj doc))).
Proof. unfold stored. apply lookup_insert_eq. Qed.

Lemma generate_jsonld_files_unfold r use_api w :
  generate_jsonld_files env r use_api w =
  match for_ r ∅ (generate_property env use_api) w with
  | (Ok terms_counter, w') =>
      (Ok VNone,
       World (fs w') (log w')
             (stdout w' ++ ["JSON-LD files created: "
                            +:+ PyStr.str_of_nat (size (dom terms_counter))])
             (lookups w'))
  | (Raise e, w') => (Raise e, w')
  end.
Proof.
  unfold generate_jsonld_files, mbind at 1, M_bind at 1.
  by destruct (for_ r ∅ _ w) as [[c|e] w'].
Qed.

End Term.

(** C10: a non-empty [existing_ids] none of whose curies contains "ILX:"
    makes the call return the empty string, neither the sentinel nor
    [None], and the descriptor written for the term carries [sameAs] set
    to the empty string. *)
Theorem get_api_response_empty_string env term w ids :
  api_key (api_key_file env (lookups w)) ≠ "" →
  requests_get env (lookups w)
    (lookup_url (PyStr.lower term) (api_key (api_key_file env (lookups w))))
    = Response ids →
  ids ≠ [] →
  Forall (fun i => ∀ c, curie i = Some c → PyStr.contains "ILX:" c = false) ids →
  get_api_response env (PyStr.lower term) w = (Ok (VStr ""), counted w)
  ∧ ∀ key terms_counter,
      let doc := dict_set "sameAs" (JStr "") (label_doc env term) in
      let end_ := generate_term env true key terms_counter term w in
      dict_get "sameAs" doc = Some (JStr "")
      ∧ end_.1 = Ok ({[+ PyStr.lower term +]} ⊎ terms_counter)
      ∧ fs end_.2 !! term_path env key term = Some (File (Json.dump (JObj doc))).
Proof.
  intros Hkey Hget Hne Hno.
  assert (get_api_response env (PyStr.lower term) w = (Ok (VStr ""), counted w)) as Hcall.
  { rewrite get_api_response_unfold. cbn zeta.
    rewrite decide_False by done. rewrite Hget.
    destruct ids as [|i ids]; [done|].
    unfold response_match. rewrite select_match_none; [done|].
    eapply Forall_impl; [exact Hno|]. intros x Hx. unfold has_ilx_curie.
    destruct (curie x) as [c|] eqn:Hc; [exact (Hx c Hc)|done]. }
  split; [done|]. intros key terms_counter. cbn zeta.
  rewrite generate_term_unfold, describe_unfold, Hcall. cbn.
  split; [apply dict_get_set|]. split; [done|]. apply stored_lookup.
Qed.

(** An UBERON curie and an entry without curie: the empty string. *)
Lemma get_api_response_empty_string_witness :
  get_api_response (answering unrelated_ids) (PyStr.lower "Brain") initial
  = (Ok (VStr ""), counted initial).
Proof.
  apply (get_api_response_empty_string (answering unrelated_ids) "Brain" initial
           unrelated_ids).
  - by vm_compute.
  - reflexivity.
  - done.
  - repeat constructor; intros c Hc; inversion Hc; by vm_compute.
Defined.

(** ** Failures of the lookup *)

(** C2 (as stated): after an HTTP error the descriptor still has a
    [sameAs] member, holding [null]; and a transport error is not caught:
    it ends the run before anything is written. *)
Lemma sameAs_null_after_http_error :
  let end_ := generate_jsonld_files failing_service privacy_open true initial in
  let doc := [("label", JStr "open"); ("sameAs", JNull)] in
  (end_.1 = Ok VNone
   ∧ fs end_.2 !! "/scripts/privacy/Open.jsonld" = Some (File (Json.dump (JObj doc)))
   ∧ dict_get "sameAs" doc ≠ None)
  ∧ generate_jsonld_files unreachable_service privacy_open true initial
    = (Raise (ConnectionError "Connection refused"), counted initial).
Proof. by vm_compute. Qed.

(** C2 (amended): when the lookup of a term ends in an HTTP status error,
    the error is logged, the call returns [None], the descriptor of the
    term is written with [sameAs] present and null, and the loop goes on
    with the next term. *)
Theorem generate_term_after_http_error env key terms_counter term rest w e :
  api_key (api_key_file env (lookups w)) ≠ "" →
  requests_get env (lookups w)
    (lookup_url (PyStr.lower term) (api_key (api_key_file env (lookups w))))
    = Status_error e →
  let logged := log w ++ [(ERROR, "Error: " +:+ e)] in
  let doc := dict_set "sameAs" JNull (label_doc env term) in
  let w' := World (stored env key term doc (fs w)) logged (stdout w) (S (lookups w)) in
  get_api_response env (PyStr.lower term) w
    = (Ok VNone, World (fs w) logged (stdout w) (S (lookups w)))
  ∧ dict_get "sameAs" doc = Some JNull
  ∧ fs w' !! term_path env key term = Some (File (Json.dump (JObj doc)))
  ∧ for_ (term :: rest) terms_counter (generate_term env true key) w
    = for_ rest ({[+ PyStr.lower term +]} ⊎ terms_counter) (generate_term env true key) w'.
Proof.
  intros Hkey Hget logged doc w'.
  assert (get_api_response env (PyStr.lower term) w
          = (Ok VNone, World (fs w) logged (stdout w) (S (lookups w)))) as Hcall.
  { rewrite get_api_response_unfold. cbn zeta.
    rewrite decide_False by done. by rewrite Hget. }
  split; [done|]. split; [apply dict_get_set|]. split; [apply stored_lookup|].
  by rewrite for_cons, generate_term_unfold, describe_unfold, Hcall.
Qed.

(** A 503 from the service is logged and [None] is returned. *)
Lemma generate_term_after_http_error_witness :
  get_api_response failing_service (PyStr.lower "open") initial
  = (Ok VNone,
     World ∅ [(ERROR, "Error: 503 Server Error: Service Unavailable")] [] 1).
Proof.
  apply (generate_term_after_http_error failing_service "privacy" ∅ "open" [] initial
           "503 Server Error: Service Unavailable").
  - by vm_compute.
  - reflexivity.
Defined.

(** C8: each call opens the credentials file as it stands at that call;
    an empty [api_key] raises [Exception] with the [_comment] of the file
    as its message, nothing catches it, and the run ends there. *)
Theorem empty_api_key_aborts env r1 key n ts1 term ts2 r2 w c0 w0 c1 w1 :
  for_ r1 ∅ (generate_property env true) w = (Ok c0, w0) →
  for_ ts1 c0 (generate_term env true key) w0 = (Ok c1, w1) →
  api_key (api_key_file env (lookups w1)) = "" →
  let failure := Exception (_comment (api_key_file env (lookups w1))) in
  (∀ t, get_api_response env t w1 = (Raise failure, counted w1))
  ∧ generate_jsonld_files env
      (r1 ++ (key, ReportEntry n (ts1 ++ term :: ts2)) :: r2) true w
    = (Raise failure, counted w1).
Proof.
  intros Hr1 Hts1 Hkey failure.
  assert (∀ t, get_api_response env t w1 = (Raise failure, counted w1)) as Hcall.
  { intros t. rewrite get_api_response_unfold. cbn zeta.
    by rewrite decide_True. }
  split; [done|].
  rewrite generate_jsonld_files_unfold, for_app, Hr1, for_cons.
  unfold generate_property at 1. cbn [snd fst values].
  rewrite for_app, Hts1, for_cons.
  by rewrite generate_term_unfold, describe_unfold, Hcall.
Qed.

(** The key is withdrawn after the first lookup: the first descriptor is
    written, the second lookup raises and ends the run. *)
Lemma empty_api_key_aborts_witness :
  generate_jsonld_files key_withdrawn privacy_two true initial
  = (Raise (Exception "Provide an API key"), counted after_open).
Proof.
  assert (for_ ["open"] ∅ (generate_term key_withdrawn true "privacy") initial
          = (Ok ({[+ "open" +]} ⊎ ∅), after_open)) as Hfirst by (by vm_compute).
  exact (proj2 (empty_api_key_aborts key_withdrawn [] "privacy" 2 ["open"] "private"
                  [] [] initial ∅ initial _ after_open eq_refl Hfirst eq_refl)).
Defined.

(** ** The count the generator reports *)

Lemma dom_counter_update (x : string) (c : gmultiset string) :
  dom ({[+ x +]} ⊎ c) = {[ x ]} ∪ dom c.
Proof.
  apply set_eq. intros y.
  rewrite elem_of_union, elem_of_singleton, !gmultiset_elem_of_dom.
  by rewrite gmultiset_elem_of_disj_union, gmultiset_elem_of_singleton.
Qed.

Lemma dom_counter_empty : dom (∅ : gmultiset string) = ∅.
Proof.
  apply set_eq. intros y. rewrite gmultiset_elem_of_dom.
  split; [|by intros ?%not_elem_of_empty].
  by intros ?%gmultiset_not_elem_of_empty.
Qed.

Lemma size_list_to_set_remove_dups (l : list string) :
  size (list_to_set (C:=gset string) l) = List.length (remove_dups l).
Proof.
  rewrite <- (size_list_to_set (C:=gset string) (remove_dups l))
    by apply NoDup_remove_dups.
  f_equal. apply set_eq. intros x.
  by rewrite !elem_of_list_to_set, elem_of_remove_dups.
Qed.

Section Counting.

Variable env : environment.

Lemma get_api_response_stdout term w :
  stdout (get_api_response env term w).2 = stdout w.
Proof.
  rewrite get_api_response_unfold. cbn zeta.
  destruct (decide _); [done|].
  destruct (requests_get _ _ _) as [e|e|ids]; [done|done|].
  by destruct (response_match ids).
Qed.

(** One term: the counter gains the lower-cased term, nothing is
    printed, and only a lookup can raise. *)
Lemma generate_term_counts use_api key c term w :
  match generate_term env use_api key c term w with
  | (Ok c', w') => dom c' = {[ PyStr.lower term ]} ∪ dom c ∧ stdout w' = stdout w
  | (Raise _, _) => use_api = true
  end.
Proof.
  rewrite generate_term_unfold, describe_unfold. destruct use_api.
  - pose proof (get_api_response_stdout (PyStr.lower term) w) as Hout.
    destruct (get_api_response _ _ _) as [[v|e] w']; [|done].
    split; [apply dom_counter_update|done].
  - split; [apply dom_counter_update|done].
Qed.

Lemma generate_terms_count use_api key ts c w :
  match for_ ts c (generate_term env use_api key) w with
  | (Ok c', w') =>
      dom c' = list_to_set (map PyStr.lower ts) ∪ dom c ∧ stdout w' = stdout w
  | (Raise _, _) => use_api = true
  end.
Proof.
  revert c w. induction ts as [|t ts IH]; intros c w.
  - rewrite for_nil. split; [set_solver|done].
  - rewrite for_cons. pose proof (generate_term_counts use_api key c t w) as Ht.
    destruct (generate_term _ _ _ _ _ _) as [[c1|e] w1]; [|done].
    destruct Ht as [Hc1 Hw1]. specialize (IH c1 w1).
    destruct (for_ ts c1 _ w1) as [[c2|e] w2]; [|done].
    destruct IH as [Hc2 Hw2]. split; [|congruence].
    rewrite Hc2, Hc1. set_solver.
Qed.

Lemma generate_properties_count use_api r c w :
  match for_ r c (generate_property env use_api) w with
  | (Ok c', w') =>
      dom c' = list_to_set (map PyStr.lower (all_terms r)) ∪ dom c
      ∧ stdout w' = stdout w
  | (Raise _, _) => use_api = true
  end.
Proof.
  revert c w. induction r as [|[key entry] r IH]; intros c w.
  - rewrite for_nil. split; [set_solver|done].
  - rewrite for_cons. unfold generate_property at 1. cbn [fst snd].
    pose proof (generate_terms_count use_api key (values entry) c w) as Ht.
    destruct (for_ (values entry) c _ w) as [[c1|e] w1]; [|done].
    destruct Ht as [Hc1 Hw1]. specialize (IH c1 w1).
    destruct (for_ r c1 _ w1) as [[c2|e] w2]; [|done].
    destruct IH as [Hc2 Hw2]. split; [|congruence].
    rewrite Hc2, Hc1. unfold all_terms. cbn [flat_map snd].
    rewrite map_app, list_to_set_app_L. set_solver.
Qed.

End Counting.

(** C4 (as stated): one term under two properties makes two files; the
    call returns [None], not that number, and the line it prints counts
    one term. *)
Lemma generate_returns_no_count :
  let end_ := generate_jsonld_files offline mri_twice false initial in
  List.length (regular_files (fs end_.2)) = 2
  ∧ end_.1 = Ok VNone
  ∧ end_.1 ≠ Ok (VInt (Z.of_nat (List.length (regular_files (fs end_.2)))))
  ∧ stdout end_.2 = ["JSON-LD files created: 1"].
Proof. by vm_compute. Qed.

(** C4 (amended): a run of the generator that returns, returns [None];
    what it reports is a printed line, "JSON-LD files created: n", n
    being the number of terms of the report that differ once lower-cased,
    all properties together. *)
Theorem generate_prints_distinct_terms env r use_api w v w' :
  generate_jsonld_files env r use_api w = (Ok v, w') →
  v = VNone
  ∧ stdout w' =
    stdout w ++ ["JSON-LD files created: " +:+ PyStr.str_of_nat (distinct_terms r)].
Proof.
  rewrite generate_jsonld_files_unfold.
  pose proof (generate_properties_count env use_api r ∅ w) as Hloop.
  destruct (for_ r ∅ _ w) as [[c|e] w1]; [|done].
  destruct Hloop as [Hc Hout]. intros [= <- <-]. split; [done|].
  cbn [stdout]. rewrite Hout, Hc. unfold distinct_terms.
  rewrite <- size_list_to_set_remove_dups.
  by rewrite dom_counter_empty, union_empty_r_L.
Qed.

(** "MRI" under [types] and "mri" under [keywords]: one term is counted. *)
Lemma generate_prints_distinct_terms_witness :
  (generate_jsonld_files offline mri_twice false initial).1 = Ok VNone
  ∧ stdout (generate_jsonld_files offline mri_twice false initial).2
    = ["JSON-LD files created: 1"].
Proof.
  assert (generate_jsonld_files offline mri_twice false initial
          = (Ok VNone, (generate_jsonld_files offline mri_twice false initial).2))
    as Hrun by (by vm_compute).
  split; [by rewrite Hrun|].
  exact (proj2 (generate_prints_distinct_terms offline mri_twice false initial
                  VNone _ Hrun)).
Defined.

(** ** Running the generator twice *)

Section Writes.

Implicit Types (m : gmap string node) (l : list write).

Lemma perform_present m x q : is_Some (m !! q) → is_Some (perform m x !! q).
Proof.
  intros Hq. unfold perform.
  destruct (decide (write_path x = q)) as [<-|Hp].
  { rewrite lookup_insert_eq. by eexists. }
  rewrite lookup_insert_ne by done.
  destruct (decide (is_Some (m !! write_dir x))); [done|].
  destruct (decide (write_dir x = q)) as [<-|Hd].
  - rewrite lookup_insert_eq. by eexists.
  - by rewrite lookup_insert_ne.
Qed.

Lemma perform_dir m x :
  is_Some (m !! write_dir x) → perform m x = <[write_path x := write_node x]> m.
Proof. intros Hd. unfold perform. by rewrite decide_True. Qed.

Lemma perform_other m x q :
  write_path x ≠ q → is_Some (m !! q) → perform m x !! q = m !! q.
Proof.
  intros Hp Hq. unfold perform. rewrite lookup_insert_ne by done.
  destruct (decide (is_Some (m !! write_dir x))) as [Hd|Hd]; [done|].
  rewrite lookup_insert_ne; [done|]. intros <-. by destruct Hd.
Qed.

Lemma final_cons_None q x l :
  final q (x :: l) = None → final q l = None ∧ write_path x ≠ q.
Proof.
  simpl. destruct (final q l); [done|]. by case_decide.
Qed.

(** A path no write of [l] names keeps what it had. *)
Lemma fold_perform_untouched l m q :
  final q l = None → is_Some (m !! q) →
  fold_left perform l m !! q = m !! q.
Proof.
  revert m. induction l as [|x l IH]; intros m Hf Hq; [done|].
  apply final_cons_None in Hf as [Hf Hp]. simpl.
  rewrite IH; [by apply perform_other|done|by apply perform_present].
Qed.

(** The last write to a path decides what is there in the end. *)
Lemma fold_perform_final l m q v :
  final q l = Some v → fold_left perform l m !! q = Some v.
Proof.
  revert m. induction l as [|x l IH]; intros m Hf; [done|].
  simpl in *. destruct (final q l) as [v'|] eqn:Hl.
  - apply IH. congruence.
  - case_decide as Hp; [|done]. injection Hf as <-.
    rewrite fold_perform_untouched; [|done|].
    + unfold perform. rewrite <- Hp. apply lookup_insert_eq.
    + unfold perform. rewrite <- Hp, lookup_insert_eq. by eexists.
Qed.

Lemma fold_perform_present l m q :
  is_Some (m !! q) → is_Some (fold_left perform l m !! q).
Proof.
  revert m. induction l as [|x l IH]; intros m Hq; [done|].
  simpl. by apply IH, perform_present.
Qed.

Lemma fold_perform_dirs l m x :
  x ∈ l → is_Some (fold_left perform l m !! write_dir x).
Proof.
  revert m. induction l as [|y l IH]; intros m Hx; [by apply elem_of_nil in Hx|].
  apply elem_of_cons in Hx as [->|Hx]; simpl; [|by apply IH].
  apply fold_perform_present. unfold perform.
  destruct (decide (write_path y = write_dir y)) as [Hp|Hp].
  { rewrite <- Hp, lookup_insert_eq. by eexists. }
  rewrite lookup_insert_ne by done.
  destruct (decide (is_Some (m !! write_dir y))); [done|].
  rewrite lookup_insert_eq. by eexists.
Qed.

(** Replaying writes over a state that already holds their outcome. *)
Lemma fold_perform_settled l m' m :
  (∀ q, final q l = None → m !! q = m' !! q) →
  (∀ q v, final q l = Some v → m' !! q = Some v) →
  (∀ x, x ∈ l → is_Some (m !! write_dir x)) →
  fold_left perform l m = m'.
Proof.
  revert m. induction l as [|x l IH]; intros m Hsame Hfin Hdirs.
  { apply map_eq. intros q. by apply Hsame. }
  simpl. apply IH.
  - intros q Hq. rewrite perform_dir by (apply Hdirs; left).
    destruct (decide (write_path x = q)) as [<-|Hp].
    + rewrite lookup_insert_eq. symmetry. apply Hfin. simpl.
      by rewrite Hq, decide_True.
    + rewrite lookup_insert_ne by done. apply Hsame. simpl.
      by rewrite Hq, decide_False.
  - intros q v Hq. apply Hfin. simpl. by rewrite Hq.
  - intros y Hy. apply perform_present, Hdirs. by right.
Qed.

Lemma fold_perform_twice l m :
  fold_left perform l (fold_left perform l m) = fold_left perform l m.
Proof.
  apply fold_perform_settled.
  - done.
  - intros q v Hq. by apply fold_perform_final.
  - intros x Hx. by apply fold_perform_dirs.
Qed.

End Writes.

Section Offline.

Variable env : environment.

Lemma stored_perform key term m :
  stored env key term (label_doc env term) m = perform m (write_of env key term).
Proof. reflexivity. Qed.

Lemma generate_terms_offline key ts c w :
  ∃ c', for_ ts c (generate_term env false key) w =
        (Ok c', World (fold_left perform (map (write_of env key) ts) (fs w))
                      (log w) (stdout w) (lookups w)).
Proof.
  revert c w. induction ts as [|t ts IH]; intros c w.
  - exists c. by destruct w.
  - rewrite for_cons, generate_term_unfold, describe_unfold.
    rewrite stored_perform.
    destruct (IH ({[+ PyStr.lower t +]} ⊎ c)
                (World (perform (fs w) (write_of env key t))
                       (log w) (stdout w) (lookups w))) as [c' Hc'].
    exists c'. by rewrite Hc'.
Qed.

Lemma generate_properties_offline r c w :
  ∃ c', for_ r c (generate_property env false) w =
        (Ok c', World (fold_left perform (writes_of env r) (fs w))
                      (log w) (stdout w) (lookups w)).
Proof.
  revert c w. induction r as [|[key entry] r IH]; intros c w.
  - exists c. by destruct w.
  - rewrite for_cons. unfold generate_property at 1. cbn [fst snd].
    destruct (generate_terms_offline key (values entry) c w) as [c1 ->].
    destruct (IH c1 (World (fold_left perform (map (write_of env key) (values entry)) (fs w))
                           (log w) (stdout w) (lookups w))) as [c2 ->].
    exists c2. unfold writes_of. cbn [flat_map fst snd fs log stdout lookups].
    by rewrite fold_left_app.
Qed.

Lemma generate_offline r w :
  (generate_jsonld_files env r false w).1 = Ok VNone
  ∧ fs (generate_jsonld_files env r false w).2
    = fold_left perform (writes_of env r) (fs w).
Proof.
  rewrite generate_jsonld_files_unfold.
  by destruct (generate_properties_offline r ∅ w) as [c ->].
Qed.

End Offline.

Lemma final_elem (l : list write) x :
  x ∈ l → is_Some (final (write_path x) l).
Proof.
  induction l as [|y l IH]; [by intros ?%elem_of_nil|].
  intros [->|Hx]%elem_of_cons; simpl.
  - destruct (final (write_path y) l); [by eexists|].
    rewrite decide_True by done. by eexists.
  - destruct (IH Hx) as [v ->]. by eexists.
Qed.

Lemma final_origin (l : list write) p v :
  final p l = Some v → ∃ x, x ∈ l ∧ write_path x = p ∧ write_node x = v.
Proof.
  induction l as [|y l IH]; [done|]. simpl.
  destruct (final p l) as [v'|].
  - intros [= <-]. destruct (IH eq_refl) as (x & Hx & Hp & Hv).
    exists x. split; [by right|done].
  - case_decide as Hp; [|done]. intros [= <-]. exists y. split; [left|done].
Qed.

Lemma elem_of_writes_of env (r : report) x :
  x ∈ writes_of env r ↔
  ∃ key e term, (key, e) ∈ r ∧ term ∈ values e ∧ x = write_of env key term.
Proof.
  unfold writes_of. rewrite list_elem_of_In, in_flat_map. split.
  - intros [[key e] [Hin Hx]]. cbn [fst snd] in Hx.
    apply in_map_iff in Hx as (term & <- & Ht).
    exists key, e, term. by rewrite !list_elem_of_In.
  - intros (key & e & term & Hin & Ht & ->). exists (key, e).
    split; [by apply list_elem_of_In|]. cbn [fst snd].
    apply in_map. by apply list_elem_of_In.
Qed.

(** C9: with the lookup disabled, run the generator and, from what it
    left, run it again over the same report; if both runs return, the
    file of every term of the report is there after the first run,
    holding the descriptor of a term of the report written to that path,
    and after the second run every file, indeed every path, is exactly
    as the first run left it. *)
Theorem generate_twice_same_files env r w v1 w1 v2 w2 :
  generate_jsonld_files env r false w = (Ok v1, w1) →
  generate_jsonld_files env r false w1 = (Ok v2, w2) →
  fs w2 = fs w1
  ∧ ∀ key e term, (key, e) ∈ r → term ∈ values e →
      ∃ key' e' term',
        (key', e') ∈ r ∧ term' ∈ values e'
        ∧ term_path env key' term' = term_path env key term
        ∧ fs w1 !! term_path env key term
          = Some (File (Json.dump (JObj (label_doc env term'))))
        ∧ fs w2 !! term_path env key term
          = Some (File (Json.dump (JObj (label_doc env term')))).
Proof.
  intros Hfirst Hsecond.
  destruct (generate_offline env r w) as [_ Hfs1].
  destruct (generate_offline env r w1) as [_ Hfs2].
  rewrite Hfirst in Hfs1. rewrite Hsecond in Hfs2. cbn [snd] in Hfs1, Hfs2.
  assert (fs w2 = fs w1) as Hsame.
  { rewrite Hfs2, Hfs1. apply fold_perform_twice. }
  split; [exact Hsame|]. intros key e term Hin Hterm.
  assert (write_of env key term ∈ writes_of env r) as Hw.
  { apply elem_of_writes_of. by exists key, e, term. }
  destruct (final_elem _ _ Hw) as [v Hv]. cbn [write_path write_of] in Hv.
  destruct (final_origin _ _ _ Hv) as (x & Hx & Hp & Hnode).
  apply elem_of_writes_of in Hx as (key' & e' & term' & Hin' & Hterm' & ->).
  cbn [write_path write_node write_of] in Hp, Hnode.
  exists key', e', term'. split; [done|]. split; [done|]. split; [done|].
  rewrite Hsame, Hfs1, Hnode. split; by apply fold_perform_final.
Qed.

(** Two licences that share a file: after one run and after two, the
    file holds the descriptor of the second. *)
Lemma generate_twice_same_files_witness :
  fs (generate_jsonld_files offline hyphen_or_space false
        (generate_jsonld_files offline hyphen_or_space false initial).2).2
  = fs (generate_jsonld_files offline hyphen_or_space false initial).2.
Proof.
  assert (generate_jsonld_files offline hyphen_or_space false initial
          = (Ok VNone, (generate_jsonld_files offline hyphen_or_space false initial).2))
    as Hfirst by (by vm_compute).
  assert (generate_jsonld_files offline hyphen_or_space false
            (generate_jsonld_files offline hyphen_or_space false initial).2
          = (Ok VNone,
             (generate_jsonld_files offline hyphen_or_space false
                (generate_jsonld_files offline hyphen_or_space false initial).2).2))
    as Hsecond by (by vm_compute).
  exact (proj1 (generate_twice_same_files offline hyphen_or_space initial
                  VNone _ VNone _ Hfirst Hsecond)).
Defined.

(** ** The duplicate detector *)

Section Distinct.

Implicit Types (l : list string) (x k : string).

Lemma elem_of_distinct l x : x ∈ distinct l ↔ x ∈ l.
Proof.
  induction l as [|y l IH]; [done|]. simpl.
  rewrite !elem_of_cons, list_elem_of_filter, IH.
  destruct (decide (x = y)); naive_solver.
Qed.

Lemma NoDup_distinct l : NoDup (distinct l).
Proof.
  induction l as [|y l IH]; simpl; [constructor|].
  constructor; [|by apply NoDup_filter].
  rewrite list_elem_of_filter. naive_solver.
Qed.

Lemma distinct_snoc l k :
  distinct (l ++ [k]) = if decide (k ∈ l) then distinct l else distinct l ++ [k].
Proof.
  induction l as [|y l IH]; [done|].
  rewrite <- app_comm_cons. cbn [distinct]. rewrite IH.
  destruct (decide (k ∈ l)) as [Hin|Hin].
  - rewrite decide_True; [done|by right].
  - rewrite filter_app, filter_cons, filter_nil.
    destruct (decide (k = y)) as [->|Hne].
    + rewrite decide_False by naive_solver.
      rewrite decide_True by left. by rewrite app_nil_r.
    + rewrite decide_True by done. rewrite decide_False; [done|].
      rewrite elem_of_cons. naive_solver.
Qed.

Lemma length_distinct l : (List.length (distinct l) ≤ List.length l)%nat.
Proof.
  induction l as [|y l IH]; simpl; [lia|].
  pose proof (length_filter (fun z => z ≠ y) (distinct l)). lia.
Qed.

(** As many distinct elements as elements: no element is repeated. *)
Lemma length_distinct_NoDup l :
  List.length (distinct l) = List.length l → NoDup l.
Proof.
  induction l as [|y l IH]; simpl; [constructor|]. intros Hlen.
  pose proof (length_filter (fun z => z ≠ y) (distinct l)) as Hf.
  pose proof (length_distinct l) as Hd.
  constructor; [|apply IH; lia].
  intros Hy. apply elem_of_distinct in Hy.
  pose proof (length_filter_lt (fun z => z ≠ y) (distinct l) y Hy) as Hlt.
  assert (¬ y ≠ y) as Hyy by naive_solver. specialize (Hlt Hyy). lia.
Qed.

End Distinct.

Section Grouping.

Implicit Types (terms : list string) (t k : string).

Lemma variants_snoc terms t k :
  variants (terms ++ [t]) k
  = variants terms k ++ (if decide (PyStr.lower t = k) then [t] else []).
Proof. unfold variants. by rewrite filter_app, filter_cons, filter_nil. Qed.

Lemma variants_absent terms k : k ∉ map PyStr.lower terms → variants terms k = [].
Proof.
  intros Hk. unfold variants. induction terms as [|t terms IH]; [done|].
  cbn [map] in Hk. rewrite not_elem_of_cons in Hk. destruct Hk as [Hne Hk].
  rewrite filter_cons_False by done. by apply IH.
Qed.

(** Filing a term under a key that a table with distinct keys holds. *)
Lemma file_term_present (V : string → list string) ks k t :
  NoDup ks → k ∈ ks →
  file_term k t (map (fun k' => (k', V k')) ks)
  = map (fun k' => (k', V k' ++ (if decide (k = k') then [t] else []))) ks.
Proof.
  induction 1 as [|k0 ks Hk0 Hnd IH]; intros Hin; [by apply elem_of_nil in Hin|].
  cbn [map file_term]. destruct (decide (k0 = k)) as [->|Hne].
  - rewrite decide_True by done. f_equal.
    apply map_ext_in. intros k' Hk'. apply list_elem_of_In in Hk'.
    rewrite decide_False; [by rewrite app_nil_r|]. by intros <-.
  - rewrite decide_False by done. rewrite app_nil_r. f_equal.
    apply IH. apply elem_of_cons in Hin. naive_solver.
Qed.

Lemma file_term_absent (V : string → list string) ks k t :
  k ∉ ks →
  file_term k t (map (fun k' => (k', V k')) ks)
  = map (fun k' => (k', V k' ++ (if decide (k = k') then [t] else []))) ks
    ++ [(k, [t])].
Proof.
  induction ks as [|k0 ks IH]; intros Hk; [done|].
  rewrite not_elem_of_cons in Hk. destruct Hk as [Hne Hk].
  cbn [map file_term]. rewrite decide_False by done.
  rewrite decide_False by done. rewrite app_nil_r, IH by done. done.
Qed.

(** The table built by the loop: one row per lower-cased form, in order
    of first appearance, holding the terms so spelled. *)
Lemma normalize_groups terms :
  normalize terms
  = map (fun k => (k, variants terms k)) (distinct (map PyStr.lower terms)).
Proof.
  unfold normalize. induction terms as [|t terms IH] using rev_ind; [done|].
  rewrite fold_left_app. cbn [fold_left]. rewrite IH.
  rewrite map_app. cbn [map]. rewrite distinct_snoc.
  destruct (decide (PyStr.lower t ∈ map PyStr.lower terms)) as [Hin|Hin].
  - rewrite file_term_present;
      [|apply NoDup_distinct|by apply elem_of_distinct].
    apply map_ext. intros k. rewrite variants_snoc. done.
  - rewrite file_term_absent by (by rewrite elem_of_distinct).
    rewrite map_app. cbn [map]. f_equal.
    + apply map_ext. intros k. by rewrite variants_snoc.
    + rewrite variants_snoc, variants_absent by done.
      by rewrite decide_True.
Qed.

Lemma duplicate_messages_groups key (V : string → list string) ks :
  duplicate_messages key (map (fun k => (k, V k)) ks)
  = map (duplicate_message key) (filter (fun v => 1 < List.length v) (map V ks)).
Proof.
  unfold duplicate_messages. induction ks as [|k ks IH]; [done|].
  cbn [map]. rewrite !filter_cons. cbn [snd].
  destruct (decide (1 < List.length (V k))); cbn [map]; by rewrite IH.
Qed.

Lemma duplicate_messages_collisions key terms :
  duplicate_messages key (normalize terms)
  = map (duplicate_message key) (collisions terms).
Proof. rewrite normalize_groups. apply duplicate_messages_groups. Qed.

Lemma variants_NoDup terms k :
  NoDup (map PyStr.lower terms) → (List.length (variants terms k) ≤ 1)%nat.
Proof.
  unfold variants. induction terms as [|t terms IH]; [simpl; lia|].
  cbn [map]. intros [Ht Hnd]%NoDup_cons. rewrite filter_cons.
  destruct (decide (PyStr.lower t = k)) as [<-|Hne]; [|by apply IH].
  fold (variants terms (PyStr.lower t)).
  rewrite variants_absent by done. simpl. lia.
Qed.

(** No two terms alike once lower-cased: no collision. *)
Lemma collisions_NoDup terms :
  NoDup (map PyStr.lower terms) → collisions terms = [].
Proof.
  intros Hnd. unfold collisions.
  induction (distinct (map PyStr.lower terms)) as [|k ks IH]; [done|].
  cbn [map]. rewrite filter_cons_False; [done|].
  pose proof (variants_NoDup terms k Hnd). lia.
Qed.

End Grouping.

Lemma find_duplicates_in_collisions r errors key w :
  (∀ e, report_get key r = Some e → count e = Z.of_nat (List.length (values e))) →
  (find_duplicates_in r errors key w).1
  = Ok (errors ++ match report_get key r with
                  | Some e => map (duplicate_message key) (collisions (values e))
                  | None => []
                  end).
Proof.
  intros Hcount. unfold find_duplicates_in.
  destruct (report_get key r) as [e|]; [|by rewrite app_nil_r].
  specialize (Hcount e eq_refl).
  destruct (decide (count e = Z.of_nat (List.length (normalize (values e)))))
    as [Heq|Hne].
  - rewrite collisions_NoDup; [by rewrite app_nil_r|].
    apply length_distinct_NoDup.
    rewrite Hcount, normalize_groups, !length_map in Heq.
    rewrite length_map. lia.
  - by rewrite duplicate_messages_collisions.
Qed.

Lemma find_duplicates_loop r keys errors w :
  (∀ key e, report_get key r = Some e →
            count e = Z.of_nat (List.length (values e))) →
  (for_ keys errors (find_duplicates_in r) w).1
  = Ok (errors ++ flat_map (fun key =>
                    match report_get key r with
                    | Some e => map (duplicate_message key) (collisions (values e))
                    | None => []
                    end) keys).
Proof.
  intros Hcount. revert errors w.
  induction keys as [|key keys IH]; intros errors w.
  - by rewrite for_nil, app_nil_r.
  - rewrite for_cons.
    pose proof (find_duplicates_in_collisions r errors key w (Hcount key)) as Hstep.
    destruct (find_duplicates_in r errors key w) as [[errors'|e] w']; [|done].
    cbn [fst] in Hstep. injection Hstep as ->.
    rewrite IH. cbn [flat_map]. by rewrite app_assoc.
Qed.

(** *** With the built-ins left open *)

Section AnyFolding.

Variable lower : string → string.
Variable repr_list : list string → string.

Implicit Types (terms : list string) (t k : string).

Lemma variants_by_snoc terms t k :
  variants_by lower (terms ++ [t]) k
  = variants_by lower terms k ++ (if decide (lower t = k) then [t] else []).
Proof. unfold variants_by. by rewrite filter_app, filter_cons, filter_nil. Qed.

Lemma variants_by_absent terms k :
  k ∉ map lower terms → variants_by lower terms k = [].
Proof.
  intros Hk. unfold variants_by. induction terms as [|t terms IH]; [done|].
  cbn [map] in Hk. rewrite not_elem_of_cons in Hk. destruct Hk as [Hne Hk].
  rewrite filter_cons_False by done. by apply IH.
Qed.

(** The table of lines 141-146: one row per lower-cased form, in order
    of first appearance, holding the values so spelled. *)
Lemma normalize_by_groups terms :
  normalize_by lower terms
  = map (fun k => (k, variants_by lower terms k)) (distinct (map lower terms)).
Proof.
  unfold normalize_by. induction terms as [|t terms IH] using rev_ind; [done|].
  rewrite fold_left_app. cbn [fold_left]. rewrite IH.
  rewrite map_app. cbn [map]. rewrite distinct_snoc.
  destruct (decide (lower t ∈ map lower terms)) as [Hin|Hin].
  - rewrite file_term_present;
      [|apply NoDup_distinct|by apply elem_of_distinct].
    apply map_ext. intros k. by rewrite variants_by_snoc.
  - rewrite file_term_absent by (by rewrite elem_of_distinct).
    rewrite map_app. cbn [map]. f_equal.
    + apply map_ext. intros k. by rewrite variants_by_snoc.
    + rewrite variants_by_snoc, variants_by_absent by done.
      by rewrite decide_True.
Qed.

Lemma messages_by_groups key (V : string → list string) ks :
  map (fun kv => duplicate_message_by repr_list key kv.2)
      (filter (fun kv => 1 < List.length kv.2) (map (fun k => (k, V k)) ks))
  = map (duplicate_message_by repr_list key)
        (filter (fun v => 1 < List.length v) (map V ks)).
Proof.
  induction ks as [|k ks IH]; [done|].
  cbn [map]. rewrite !filter_cons. cbn [snd].
  destruct (decide (1 < List.length (V k))); cbn [map]; by rewrite IH.
Qed.

Lemma variants_by_NoDup terms k :
  NoDup (map lower terms) → (List.length (variants_by lower terms k) ≤ 1)%nat.
Proof.
  unfold variants_by. induction terms as [|t terms IH]; [simpl; lia|].
  cbn [map]. intros [Ht Hnd]%NoDup_cons. rewrite filter_cons.
  destruct (decide (lower t = k)) as [<-|Hne]; [|by apply IH].
  fold (variants_by lower terms (lower t)).
  rewrite variants_by_absent by done. simpl. lia.
Qed.

Lemma collisions_by_NoDup terms :
  NoDup (map lower terms) → collisions_by lower terms = [].
Proof.
  intros Hnd. unfold collisions_by.
  induction (distinct (map lower terms)) as [|k ks IH]; [done|].
  cbn [map]. rewrite filter_cons_False; [done|].
  pose proof (variants_by_NoDup terms k Hnd). lia.
Qed.

Lemma find_duplicates_in_by_collisions r errors key w :
  (∀ e, report_get key r = Some e → count e = Z.of_nat (List.length (values e))) →
  (find_duplicates_in_by lower repr_list r errors key w).1
  = Ok (errors ++ match report_get key r with
                  | Some e => map (duplicate_message_by repr_list key)
                                  (collisions_by lower (values e))
                  | None => []
                  end).
Proof.
  intros Hcount. unfold find_duplicates_in_by.
  destruct (report_get key r) as [e|]; [|by rewrite app_nil_r].
  specialize (Hcount e eq_refl).
  destruct (decide (count e = Z.of_nat (List.length (normalize_by lower (values e)))))
    as [Heq|Hne].
  - rewrite collisions_by_NoDup; [by rewrite app_nil_r|].
    apply length_distinct_NoDup.
    rewrite Hcount, normalize_by_groups, !length_map in Heq.
    rewrite length_map. lia.
  - cbn [fst]. rewrite normalize_by_groups, messages_by_groups. done.
Qed.

Lemma find_duplicates_by_loop r keys errors w :
  (∀ key e, report_get key r = Some e →
            count e = Z.of_nat (List.length (values e))) →
  (for_ keys errors (find_duplicates_in_by lower repr_list r) w).1
  = Ok (errors ++ flat_map (fun key =>
                    match report_get key r with
                    | Some e => map (duplicate_message_by repr_list key)
                                    (collisions_by lower (values e))
                    | None => []
                    end) keys).
Proof.
  intros Hcount. revert errors w.
  induction keys as [|key keys IH]; intros errors w.
  - by rewrite for_nil, app_nil_r.
  - rewrite for_cons.
    pose proof (find_duplicates_in_by_collisions r errors key w (Hcount key)) as Hstep.
    destruct (find_duplicates_in_by lower repr_list r errors key w)
      as [[errors'|e] w']; [|done].
    cbn [fst] in Hstep. injection Hstep as ->.
    rewrite IH. cbn [flat_map]. by rewrite app_assoc.
Qed.

End AnyFolding.

(** [find_duplicates] is the detector at the primitives of [PyStr]. *)
Lemma find_duplicates_by_PyStr r :
  find_duplicates_by PyStr.lower PyStr.repr_list r = find_duplicates r.
Proof. reflexivity. Qed.

(** C6 (as stated): a report need not count its values right. Here two
    spellings of one value are listed and the count says one, which is
    also the number of lower-cased forms: the group of two is there and
    no message is returned. *)
Lemma find_duplicates_miscounted_silent :
  collisions (values (ReportEntry 1 ["Male"; "male"])) = [["Male"; "male"]]
  ∧ (find_duplicates [("privacy", ReportEntry 1 ["Male"; "male"])] initial).1 = Ok [].
Proof. by vm_compute. Qed.

(** C6 (amended): on a report in which each count is the number of
    values listed, the messages are, property after property, one for
    each group of two or more values alike once lower-cased, the message
    naming the property and listing the whole group; a property whose
    values all differ once lower-cased gets none. This holds whatever
    [str.lower] and [repr] do to the values. *)
Theorem find_duplicates_collisions (lower : string → string)
    (repr_list : list string → string) (r : report) w :
  (∀ key e, report_get key r = Some e →
            count e = Z.of_nat (List.length (values e))) →
  (find_duplicates_by lower repr_list r w).1
  = Ok (flat_map (fun key =>
          match report_get key r with
          | Some e => map (duplicate_message_by repr_list key)
                          (collisions_by lower (values e))
          | None => []
          end) PROPERTIES)
  ∧ ∀ key e, report_get key r = Some e →
             NoDup (map lower (values e)) → collisions_by lower (values e) = [].
Proof.
  intros Hcount. split.
  - unfold find_duplicates_by. by rewrite find_duplicates_by_loop.
  - intros key e _. apply collisions_by_NoDup.
Qed.

(** Three spellings of one value under [privacy]: one message. *)
Lemma find_duplicates_collisions_witness :
  (find_duplicates three_spellings initial).1
  = Ok ["Privacy duplicate terms: ['Male', 'male', 'MALE']"].
Proof.
  refine (proj1 (find_duplicates_collisions PyStr.lower PyStr.repr_list
                   three_spellings initial _)).
  intros key e. unfold three_spellings. cbn [report_get].
  case_decide; [|done]. by intros [= <-].
Defined.

(** With a lower-casing that folds the accented capital, the two
    spellings of the accented letter are reported. *)
Example find_duplicates_accented :
  (find_duplicates_by lower_e_acute PyStr.repr_list accented initial).1
  = Ok ["Keywords duplicate terms: "
        +:+ PyStr.repr_list [e_acute_capital; e_acute_small]].
Proof. by vm_compute. Qed.

Example find_duplicates_one_spelling :
  (find_duplicates one_spelling initial).1 = Ok [].
Proof. by vm_compute. Qed.

(** ** The collector *)

Lemma size_elements (s : gset string) : size s = List.length (elements s).
Proof. reflexivity. Qed.

Lemma build_report_elem named key e :
  (key, e) ∈ build_report named →
  ∃ s, (key, s) ∈ named ∧ s ≠ ∅
       ∧ e = ReportEntry (Z.of_nat (size s)) (elements s).
Proof.
  unfold build_report. rewrite list_elem_of_In, in_flat_map.
  intros [[k s] [Hin He]]. cbn [fst snd] in He.
  destruct (decide (s = ∅)) as [|Hne]; [done|].
  destruct He as [[= <- <-]|[]]. exists s. by rewrite <- list_elem_of_In in Hin.
Qed.

Lemma build_report_absent named key :
  key ∉ named.*1 → report_get key (build_report named) = None.
Proof.
  induction named as [|[k s] named IH]; [done|].
  cbn [fmap list_fmap fst]. rewrite not_elem_of_cons. intros [Hne Hk].
  unfold build_report in *. cbn [flat_map fst snd].
  destruct (decide (s = ∅)); cbn [app report_get]; [by apply IH|].
  rewrite decide_False by done. by apply IH.
Qed.

Lemma build_report_get named key :
  NoDup named.*1 →
  report_get key (build_report named)
  = match assoc key named with
    | Some s => if decide (s = ∅) then None
                else Some (ReportEntry (Z.of_nat (size s)) (elements s))
    | None => None
    end.
Proof.
  induction named as [|[k s] named IH]; [done|].
  cbn [fmap list_fmap fst]. intros [Hk Hnd]%NoDup_cons.
  unfold build_report in *. cbn [flat_map fst snd assoc].
  destruct (decide (k = key)) as [->|Hne].
  - destruct (decide (s = ∅)); cbn [app report_get].
    + by apply build_report_absent.
    + by rewrite decide_True.
  - destruct (decide (s = ∅)); cbn [app report_get]; [by apply IH|].
    rewrite decide_False by done. by apply IH.
Qed.

Lemma named_sets_keys c : NoDup (named_sets c).*1.
Proof. apply (bool_decide_unpack _). by vm_compute. Qed.

Lemma collect_values_unfold sel root t :
  collect_values sel root t
  = match each (walk root t) collected_empty (visit sel) with
    | Ok c => Ok (build_report (named_sets c), dats_files_count c)
    | Raise e => Raise e
    end.
Proof. reflexivity. Qed.

(** C5: in a report the collector returns, every entry's count is the
    length of its values, no value is listed twice, and a property is
    absent exactly when no value was found for it. *)
Theorem collect_values_report sel root t r n :
  collect_values sel root t = Ok (r, n) →
  (∀ key e, (key, e) ∈ r →
            count e = Z.of_nat (List.length (values e))
            ∧ NoDup (values e) ∧ values e ≠ [])
  ∧ ∃ c, each (walk root t) collected_empty (visit sel) = Ok c
         ∧ ∀ key, report_get key r = None ↔ found c key = ∅.
Proof.
  rewrite collect_values_unfold.
  destruct (each _ _ _) as [c|e]; [|done]. intros Heq.
  assert (r = build_report (named_sets c)) as -> by congruence. clear Heq. split.
  - intros key e (s & _ & Hne & ->)%build_report_elem. cbn [count values].
    split; [done|]. split; [apply NoDup_elements|].
    intros Hnil. apply Hne. by apply elements_empty_inv, leibniz_equiv in Hnil.
  - exists c. split; [done|]. intros key. unfold found.
    rewrite build_report_get by apply named_sets_keys.
    destruct (assoc key (named_sets c)) as [s|]; [|done]. cbn [default].
    destruct (decide (s = ∅)); naive_solver.
Qed.

(** The report of [projects] has the three properties of C5. *)
Lemma collect_values_report_witness :
  collect_values everything "/conp-dataset/projects" projects = Ok (projects_report, 2)
  ∧ Forall (fun item => count item.2 = Z.of_nat (List.length (values item.2))
                        ∧ NoDup (values item.2) ∧ values item.2 ≠ [])
           projects_report.
Proof.
  assert (collect_values everything "/conp-dataset/projects" projects
          = Ok (projects_report, 2)) as Hrun by (by vm_compute).
  split; [exact Hrun|]. apply Forall_forall. intros [key e] Hin.
  exact (proj1 (collect_values_report everything "/conp-dataset/projects" projects
                  projects_report 2 Hrun) key e Hin).
Defined.

(** *** When the walk raises, and what it counts *)

Section Each.

Context {A S : Type} (ok : A → bool) (body : S → A → result S).

Hypothesis body_ok :
  ∀ acc x, match body acc x with
           | Ok _ => ok x = true
           | Raise _ => ok x = false
           end.

Lemma each_forallb l acc :
  match each l acc body with
  | Ok _ => forallb ok l = true
  | Raise _ => forallb ok l = false
  end.
Proof.
  revert acc. induction l as [|x l IH]; intros acc; [done|].
  cbn [each forallb]. unfold mbind, result_bind.
  pose proof (body_ok acc x) as Hx.
  destruct (body acc x) as [acc'|e]; rewrite Hx; [apply IH|done].
Qed.

End Each.

Lemma item_ok {A} key (field : option A) :
  match item key field with
  | Ok _ => bool_decide (is_Some field) = true
  | Raise _ => bool_decide (is_Some field) = false
  end.
Proof.
  by destruct field.
Qed.

Lemma datatype_values_ok typ :
  match datatype_values typ with
  | Ok _ => type_ok typ = true
  | Raise _ => type_ok typ = false
  end.
Proof.
  destruct typ as [[[[v|]]|] [[[v'|]]|] [[[v''|]]|] [[[v'''|]]|]]; by vm_compute.
Qed.

Lemma set_of_ok {A} (f : A → result string) (ok : A → bool) l :
  (∀ x, match f x with Ok _ => ok x = true | Raise _ => ok x = false end) →
  match set_of f l with
  | Ok _ => forallb ok l = true
  | Raise _ => forallb ok l = false
  end.
Proof.
  intros Hf. apply each_forallb. intros acc x. specialize (Hf x).
  unfold mbind, result_bind. by destruct (f x).
Qed.

Section Visit.

Variable sel : selection.

Lemma collect_types_ok d c :
  match collect_types sel d c with
  | Ok _ => implb (sel_types sel) (required type_ok (types d)) = true
  | Raise _ => implb (sel_types sel) (required type_ok (types d)) = false
  end.
Proof.
  unfold collect_types. destruct (sel_types sel); [|done].
  destruct (types d) as [l|]; [|done]. cbn [item mbind result_bind implb required].
  apply (each_forallb type_ok). intros acc typ.
  pose proof (datatype_values_ok typ) as Ht.
  unfold mbind, result_bind. by destruct (datatype_values typ).
Qed.

Lemma collect_licenses_ok d c :
  let ok := fun x => bool_decide (is_Some (license_name x)) in
  match collect_licenses sel d c with
  | Ok _ => implb (sel_licenses sel) (required ok (licenses d)) = true
  | Raise _ => implb (sel_licenses sel) (required ok (licenses d)) = false
  end.
Proof.
  intros ok. unfold collect_licenses. destruct (sel_licenses sel); [|done].
  destruct (licenses d) as [l|]; [|done]. cbn [item mbind result_bind implb required].
  pose proof (set_of_ok (fun x => item "name" (license_name x)) ok l
                (fun x => item_ok "name" (license_name x))) as Hl.
  unfold mbind, result_bind. by destruct (set_of _ l).
Qed.

Lemma collect_formats_ok d c :
  match collect_formats sel d c with
  | Ok _ => implb (sel_formats sel) (required (fun _ => true) (distributions d)) = true
  | Raise _ => implb (sel_formats sel) (required (fun _ => true) (distributions d)) = false
  end.
Proof.
  unfold collect_formats. destruct (sel_formats sel); [|done].
  destruct (distributions d) as [l|]; [|done]. cbn.
  induction l; [done|]. done.
Qed.

Lemma collect_keywords_ok d c :
  match collect_keywords sel d c with
  | Ok _ => implb (sel_keywords sel) (required has_value (keywords d)) = true
  | Raise _ => implb (sel_keywords sel) (required has_value (keywords d)) = false
  end.
Proof.
  unfold collect_keywords. destruct (sel_keywords sel); [|done].
  destruct (keywords d) as [l|]; [|done]. cbn [item mbind result_bind implb required].
  pose proof (set_of_ok (fun k => item "value" (annotation_value k)) has_value l
                (fun k => item_ok "value" (annotation_value k))) as Hl.
  unfold mbind, result_bind. by destruct (set_of _ l).
Qed.

Lemma file_named_elem name files :
  is_Some (file_named name files) ↔ name ∈ files.*1.
Proof.
  induction files as [|[n c] files IH]; cbn [file_named fmap list_fmap fst].
  - rewrite elem_of_nil. split; [by intros [? ?]|done].
  - rewrite elem_of_cons. destruct (decide (n = name)) as [->|Hne].
    + split; [by left|by eexists].
    + rewrite IH. naive_solver.
Qed.

(** One step either raises, on an ill-formed descriptor, or counts the
    directory if it holds a [DATS.json]. *)
Lemma visit_ok acc step :
  match visit sel acc step with
  | Ok c => well_formed_files sel step.2 = true
            ∧ dats_files_count c = dats_files_count acc + holds_dats step
  | Raise _ => well_formed_files sel step.2 = false
  end.
Proof.
  destruct step as [[path dirs] files]. unfold visit, well_formed_files, holds_dats.
  cbn [snd]. pose proof (file_named_elem "DATS.json" files) as Hin.
  destruct (file_named "DATS.json" files) as [[|d]|].
  - done.
  - unfold well_formed_dats, mbind, result_bind.
    pose proof (collect_types_ok d (types_datatype_values acc)) as Ht.
    destruct (collect_types _ _ _); rewrite Ht; [|done].
    pose proof (collect_licenses_ok d (licenses_values acc)) as Hl.
    cbn zeta in Hl.
    destruct (collect_licenses _ _ _); rewrite Hl; [|done].
    pose proof (collect_formats_ok d (distributions_formats acc)) as Hf.
    destruct (collect_formats _ _ _); rewrite Hf; [|done].
    pose proof (collect_keywords_ok d (keywords_values acc)) as Hk.
    destruct (collect_keywords _ _ _); rewrite Hk; [|done].
    split; [done|]. cbn [dats_files_count].
    rewrite decide_True; [lia|]. apply Hin. by eexists.
  - split; [done|]. rewrite decide_False; [lia|].
    intros Hd. apply Hin in Hd. by destruct Hd.
Qed.

Lemma each_visit steps acc :
  match each steps acc (visit sel) with
  | Ok c => forallb (fun step => well_formed_files sel step.2) steps = true
            ∧ dats_files_count c
              = dats_files_count acc + list_sum (map holds_dats steps)
  | Raise _ => forallb (fun step => well_formed_files sel step.2) steps = false
  end.
Proof.
  revert acc. induction steps as [|step steps IH]; intros acc.
  - cbn [each forallb map]. split; [done|]. cbn. lia.
  - cbn [each forallb map]. unfold mbind, result_bind.
    pose proof (visit_ok acc step) as Hs.
    destruct (visit sel acc step) as [acc'|e]; [|by rewrite Hs].
    destruct Hs as [-> Hc]. specialize (IH acc').
    destruct (each steps acc' (visit sel)) as [c|e]; [|done].
    destruct IH as [-> Hc']. split; [done|].
    unfold list_sum in *. cbn [fold_right]. lia.
Qed.

End Visit.

(** Induction over a directory tree, the subdirectories being covered. *)
Lemma tree_nested_ind (P : tree → Prop) :
  (∀ files subdirs, Forall (fun sub => P sub.2) subdirs → P (Tree files subdirs)) →
  ∀ t, P t.
Proof.
  intros Hstep. fix IH 1. intros [files subdirs]. apply Hstep.
  induction subdirs as [|[name t] subdirs IHs]; constructor; [apply IH|exact IHs].
Qed.

Lemma list_sum_app_nat (l1 l2 : list nat) :
  list_sum (l1 ++ l2) = list_sum l1 + list_sum l2.
Proof. induction l1 as [|x l1 IH]; cbn; [done|]. fold (list_sum (l1 ++ l2)). rewrite IH. unfold list_sum. lia. Qed.

(** The walk meets each directory that holds a [DATS.json] once. *)
Lemma walk_count t : ∀ root, list_sum (map holds_dats (walk root t)) = count_dats t.
Proof.
  induction t as [files subdirs IH] using tree_nested_ind. intros root.
  cbn [walk count_dats map]. unfold holds_dats at 1. cbn [snd].
  change (list_sum (?x :: ?l)) with (x + list_sum l). f_equal.
  induction IH as [|[name t] subdirs Ht _ IHs]; [done|].
  cbn [flat_map map snd]. rewrite map_app, list_sum_app_nat, Ht.
  change (list_sum (?x :: ?l)) with (x + list_sum l). by rewrite IHs.
Qed.

Lemma walk_well_formed sel t :
  ∀ root, forallb (fun step => well_formed_files sel step.2) (walk root t)
          = well_formed sel t.
Proof.
  induction t as [files subdirs IH] using tree_nested_ind. intros root.
  cbn [walk well_formed forallb snd]. f_equal.
  induction IH as [|[name t] subdirs Ht _ IHs]; [done|].
  cbn [flat_map forallb snd]. by rewrite forallb_app, Ht, IHs.
Qed.

(** C7: the count the collector returns is the number of directories of
    the tree that hold a file named [DATS.json]; the collector returns
    whenever every such file is a well-formed descriptor. *)
Theorem collect_values_file_count sel root t :
  match collect_values sel root t with
  | Ok (_, dats_files_count) => dats_files_count = count_dats t
  | Raise _ => well_formed sel t = false
  end.
Proof.
  rewrite collect_values_unfold.
  pose proof (each_visit sel (walk root t) collected_empty) as Hwalk.
  destruct (each _ _ _) as [c|e].
  - destruct Hwalk as [_ ->]. by rewrite walk_count.
  - by rewrite <- (walk_well_formed sel t root).
Qed.

Example collect_values_counts_projects :
  well_formed everything projects = true
  ∧ count_dats projects = 2
  ∧ collect_values everything "/conp-dataset/projects" projects
    = Ok (projects_report, 2).
Proof. by vm_compute. Qed.


(** * Further properties *)

(** ** What else a lookup can do *)

Lemma select_match_missing_iri ids match_ :
  Exists (fun i => has_ilx_curie i = true ∧ iri i = None) ids →
  select_match ids match_ = Raise (KeyError "iri").
Proof.
  intros Hex. revert match_.
  induction Hex as [i ids [Hc Hi]|i ids _ IH]; intros match_; simpl.
  - by rewrite Hc, Hi.
  - destruct (has_ilx_curie i); [|apply IH].
    destruct (iri i); [apply IH|done].
Qed.

(** Whatever a lookup raises ends the run at the term it was made for. *)
Lemma lookup_failure_aborts env r1 key n ts1 term ts2 r2 w c0 w0 c1 w1 e w1' :
  for_ r1 ∅ (generate_property env true) w = (Ok c0, w0) →
  for_ ts1 c0 (generate_term env true key) w0 = (Ok c1, w1) →
  get_api_response env (PyStr.lower term) w1 = (Raise e, w1') →
  generate_jsonld_files env
    (r1 ++ (key, ReportEntry n (ts1 ++ term :: ts2)) :: r2) true w
  = (Raise e, w1').
Proof.
  intros Hr1 Hts1 Hcall.
  rewrite generate_jsonld_files_unfold, for_app, Hr1, for_cons.
  unfold generate_property at 1. cbn [snd fst values].
  rewrite for_app, Hts1, for_cons.
  by rewrite generate_term_unfold, describe_unfold, Hcall.
Qed.

(** X1: an entry whose curie contains "ILX:" and that has no [iri] key
    makes the call raise [KeyError]; the handler of line 55 does not
    catch it, and the run ends at that term. *)
Theorem missing_iri_aborts env r1 key n ts1 term ts2 r2 w c0 w0 c1 w1 ids :
  for_ r1 ∅ (generate_property env true) w = (Ok c0, w0) →
  for_ ts1 c0 (generate_term env true key) w0 = (Ok c1, w1) →
  api_key (api_key_file env (lookups w1)) ≠ "" →
  requests_get env (lookups w1)
    (lookup_url (PyStr.lower term) (api_key (api_key_file env (lookups w1))))
    = Response ids →
  Exists (fun i => has_ilx_curie i = true ∧ iri i = None) ids →
  get_api_response env (PyStr.lower term) w1 = (Raise (KeyError "iri"), counted w1)
  ∧ generate_jsonld_files env
      (r1 ++ (key, ReportEntry n (ts1 ++ term :: ts2)) :: r2) true w
    = (Raise (KeyError "iri"), counted w1).
Proof.
  intros Hr1 Hts1 Hkey Hget Hex.
  assert (get_api_response env (PyStr.lower term) w1
          = (Raise (KeyError "iri"), counted w1)) as Hcall.
  { rewrite get_api_response_unfold. cbn zeta.
    rewrite decide_False by done. rewrite Hget.
    destruct ids as [|i ids]; [by apply Exists_nil in Hex|].
    unfold response_match. by rewrite select_match_missing_iri. }
  split; [done|]. by eapply lookup_failure_aborts.
Qed.

(** The only term of the report meets an InterLex entry without [iri]. *)
Lemma missing_iri_aborts_witness :
  generate_jsonld_files (answering interlex_without_iri) privacy_open true initial
  = (Raise (KeyError "iri"), counted initial).
Proof.
  refine (proj2 (missing_iri_aborts (answering interlex_without_iri) [] "privacy" 1
                   [] "open" [] [] initial ∅ initial ∅ initial interlex_without_iri
                   eq_refl eq_refl _ eq_refl _)).
  - by vm_compute.
  - apply Exists_cons_tl, Exists_cons_hd. by vm_compute.
Defined.

(** X2: a transport failure of the request is no [HTTPError]: the call
    raises it without logging, and the run ends at that term, the files
    of the earlier terms staying as written. *)
Theorem transport_error_aborts env r1 key n ts1 term ts2 r2 w c0 w0 c1 w1 e :
  for_ r1 ∅ (generate_property env true) w = (Ok c0, w0) →
  for_ ts1 c0 (generate_term env true key) w0 = (Ok c1, w1) →
  api_key (api_key_file env (lookups w1)) ≠ "" →
  requests_get env (lookups w1)
    (lookup_url (PyStr.lower term) (api_key (api_key_file env (lookups w1))))
    = Transport_error e →
  generate_jsonld_files env
    (r1 ++ (key, ReportEntry n (ts1 ++ term :: ts2)) :: r2) true w
  = (Raise (ConnectionError e),
     World (fs w1) (log w1) (stdout w1) (S (lookups w1))).
Proof.
  intros Hr1 Hts1 Hkey Hget.
  eapply lookup_failure_aborts; [done|done|].
  rewrite get_api_response_unfold. cbn zeta.
  rewrite decide_False by done. by rewrite Hget.
Qed.

(** The connection is lost after the first of two terms. *)
Lemma transport_error_aborts_witness :
  generate_jsonld_files connection_lost privacy_two true initial
  = (Raise (ConnectionError "Connection refused"), counted after_open).
Proof.
  assert (for_ ["open"] ∅ (generate_term connection_lost true "privacy") initial
          = (Ok ({[+ "open" +]} ⊎ ∅), after_open)) as Hfirst by (by vm_compute).
  refine (transport_error_aborts connection_lost [] "privacy" 2 ["open"] "private"
            [] [] initial ∅ initial _ after_open "Connection refused"
            eq_refl Hfirst _ eq_refl).
  by vm_compute.
Defined.

(** ** The test on the curie *)

Lemma startswith_app p s :
  PyStr.startswith p s = true ↔ ∃ post, s = p +:+ post.
Proof.
  revert s. induction p as [|a p IH]; intros s; simpl.
  - split; [by exists s|done].
  - destruct s as [|b s]; simpl.
    + split; [done|]. by intros [post ?].
    + rewrite andb_true_iff, bool_decide_eq_true, IH. split.
      * intros [-> [post ->]]. by exists post.
      * intros [post [= -> ->]]. split; [done|by exists post].
Qed.

Lemma contains_app needle hay :
  PyStr.contains needle hay = true ↔ ∃ pre post, hay = pre +:+ needle +:+ post.
Proof.
  induction hay as [|b hay IH]; simpl.
  - rewrite orb_false_r, startswith_app. split.
    + intros [post ->]. by exists "", post.
    + intros [pre [post Heq]]. destruct pre as [|a pre]; [by exists post|done].
  - rewrite orb_true_iff, startswith_app, IH. split.
    + intros [[post ->]|[pre [post ->]]].
      * by exists "", post.
      * by exists (String b pre), post.
    + intros [pre [post Heq]]. destruct pre as [|a pre].
      * left. by exists post.
      * right. injection Heq as -> ->. by exists pre, post.
Qed.

(** X3: an entry passes the test of line 50 exactly when it has a curie
    in which "ILX:", in upper case, occurs somewhere: at the start or
    further in. *)
Theorem has_ilx_curie_substring i :
  has_ilx_curie i = true ↔ ∃ pre post, curie i = Some (pre +:+ "ILX:" +:+ post).
Proof.
  unfold has_ilx_curie. destruct (curie i) as [c|].
  - change (PyStr.upper "ILX:") with "ILX:". rewrite contains_app. split.
    + intros [pre [post ->]]. by exists pre, post.
    + intros [pre [post [= ->]]]. by exists pre, post.
  - split; [done|]. by intros [pre [post ?]].
Qed.

(** ** Letter case and file names *)

Ltac each_char c := destruct c as [[] [] [] [] [] [] [] []]; by vm_compute.

Lemma lower_char_cases c :
  (PyStr.islower_char c = true → PyStr.lower_char c = c)
  ∧ (PyStr.isupper_char c = true →
     PyStr.islower_char (PyStr.lower_char c) = true
     ∧ PyStr.upper_char (PyStr.lower_char c) = c
     ∧ PyStr.islower_char c = false)
  ∧ (PyStr.islower_char c = false → PyStr.isupper_char c = false →
     PyStr.lower_char c = c).
Proof. each_char c. Qed.

Lemma title_go_lower previous_is_cased s :
  PyStr.title_go previous_is_cased (PyStr.lower s)
  = PyStr.title_go previous_is_cased s.
Proof.
  revert previous_is_cased. induction s as [|c s IH]; intros b; [done|].
  change (PyStr.lower (String c s)) with (String (PyStr.lower_char c) (PyStr.lower s)).
  destruct (lower_char_cases c) as (Hlow & Hup & Hnone). cbn [PyStr.title_go].
  destruct (PyStr.islower_char c) eqn:Hl.
  - rewrite (Hlow eq_refl), Hl. by rewrite IH.
  - destruct (PyStr.isupper_char c) eqn:Hu.
    + destruct (Hup eq_refl) as (-> & -> & _). by rewrite IH.
    + rewrite (Hnone eq_refl eq_refl), Hl, Hu. by rewrite IH.
Qed.

Lemma filename_lower term : filename (PyStr.lower term) = filename term.
Proof. unfold filename, PyStr.title. by rewrite title_go_lower. Qed.

Lemma lower_lower s : PyStr.lower (PyStr.lower s) = PyStr.lower s.
Proof.
  induction s as [|c s IH]; [done|].
  change (PyStr.lower (String ?a ?t)) with (String (PyStr.lower_char a) (PyStr.lower t)).
  change (PyStr.lower (String ?a ?t)) with (String (PyStr.lower_char a) (PyStr.lower t)).
  f_equal; [each_char c|exact IH].
Qed.

(** X4: two spellings in ASCII of a term that differ in letter case
    only get the same file name, hence the same path under a property,
    and without the lookup the same descriptor: the later one silently
    replaces the earlier one. *)
Theorem case_variants_share_file env key t1 t2 :
  isascii t1 = true → isascii t2 = true →
  PyStr.lower t1 = PyStr.lower t2 →
  filename t1 = filename t2
  ∧ term_path env key t1 = term_path env key t2
  ∧ write_of env key t1 = write_of env key t2.
Proof.
  intros _ _ Hlow.
  assert (filename t1 = filename t2) as Hname.
  { by rewrite <- (filename_lower t1), Hlow, filename_lower. }
  split; [done|]. unfold write_of, term_path, label_doc.
  by rewrite Hname, Hlow.
Qed.

(** "MRI" and "mri" under [types]. *)
Lemma case_variants_share_file_witness :
  term_path offline "types" "MRI" = term_path offline "types" "mri".
Proof.
  exact (proj1 (proj2 (case_variants_share_file offline "types" "MRI" "mri"
                         eq_refl eq_refl eq_refl))).
Defined.

Lemma title_go_alnum_free b s :
  sforall (fun c => negb (PyStr.isalnum_char c)) (PyStr.title_go b s)
  = sforall (fun c => negb (PyStr.isalnum_char c)) s.
Proof.
  revert b. induction s as [|c s IH]; intros b; [done|]. cbn [PyStr.title_go].
  assert (PyStr.isalnum_char (PyStr.upper_char c) = PyStr.isalnum_char c) as Hu
    by each_char c.
  assert (PyStr.isalnum_char (PyStr.lower_char c) = PyStr.isalnum_char c) as Hl
    by each_char c.
  destruct (PyStr.islower_char c); [|destruct (PyStr.isupper_char c)];
    cbn [sforall]; rewrite IH; destruct b; by rewrite ?Hu, ?Hl.
Qed.

Lemma sfilter_empty p s :
  PyStr.sfilter p s = "" ↔ sforall (fun c => negb (p c)) s = true.
Proof.
  induction s as [|c s IH]; [done|]. simpl.
  destruct (p c); simpl; [split; done|exact IH].
Qed.

Lemma filename_title term :
  filename term = PyStr.sfilter PyStr.isalnum_char (PyStr.title term).
Proof. apply sfilter_sfilter, isalnum_not_space. Qed.

(** X5: for a term in ASCII the file name is empty exactly when the term
    has no letter and no digit; such a term is written to the file
    [.jsonld] of its directory. *)
Theorem filename_empty_iff term :
  isascii term = true →
  filename term = "" ↔ sforall (fun c => negb (PyStr.isalnum_char c)) term = true.
Proof.
  intros _. rewrite filename_title, sfilter_empty. unfold PyStr.title.
  by rewrite title_go_alnum_free.
Qed.

(** A term made of punctuation has an empty file name. *)
Lemma filename_empty_iff_witness :
  filename "+/- (?)" = ""
  ↔ sforall (fun c => negb (PyStr.isalnum_char c)) "+/- (?)" = true.
Proof. exact (filename_empty_iff "+/- (?)" eq_refl). Defined.

Lemma append_assoc (a b c : string) : (a +:+ b) +:+ c = a +:+ (b +:+ c).
Proof.
  induction a as [|x a IH]; [done|].
  change (String x ((a +:+ b) +:+ c) = String x (a +:+ b +:+ c)). by rewrite IH.
Qed.

Lemma startswith_prefix a rest : PyStr.startswith a (a +:+ rest) = true.
Proof. apply startswith_app. by exists rest. Qed.

Lemma path_join_relative a b :
  PyStr.startswith "/" b = false → ∃ rest, path_join a b = a +:+ rest.
Proof.
  intros Hb. unfold path_join. rewrite Hb.
  destruct (_ || _); [by exists b|by exists ("/" +:+ b)].
Qed.

Lemma filename_relative term : PyStr.startswith "/" (filename term) = false.
Proof.
  pose proof (sforall_sfilter PyStr.isalnum_char
                (PyStr.remove_spaces (PyStr.title term))) as Hall.
  fold (PyStr.keep_alnum (PyStr.remove_spaces (PyStr.title term))) in Hall.
  fold (filename term) in Hall.
  destruct (filename term) as [|c s]; [done|]. simpl in *.
  apply andb_true_iff in Hall as [Hc _].
  rewrite andb_true_r. apply bool_decide_eq_false. intros <-. done.
Qed.

(** X6: when the property key is not an absolute path, the path of a
    descriptor begins with [CURRENT_WORKING_DIR]. *)
Theorem term_path_under_cwd env key term :
  PyStr.startswith "/" key = false →
  PyStr.startswith (CURRENT_WORKING_DIR env) (term_path env key term) = true.
Proof.
  intros Hkey. unfold term_path, term_directory.
  destruct (path_join_relative (CURRENT_WORKING_DIR env) key Hkey) as [r1 ->].
  destruct (path_join_relative (CURRENT_WORKING_DIR env +:+ r1) (filename term)
              (filename_relative term)) as [r2 ->].
  rewrite !append_assoc. apply startswith_prefix.
Qed.

Lemma term_path_under_cwd_witness :
  PyStr.startswith "/scripts" (term_path offline "licenses" "CC-BY 4.0") = true.
Proof. exact (term_path_under_cwd offline "licenses" "CC-BY 4.0" eq_refl). Defined.

(** ** The descriptor of a term *)

Lemma dict_get_set_ne key k v d :
  k ≠ key → dict_get k (dict_set key v d) = dict_get k d.
Proof.
  intros Hne. induction d as [|[k' x] d IH]; simpl.
  - by rewrite decide_False by done.
  - destruct (decide (k' = key)) as [->|Hk]; simpl.
    + by rewrite !decide_False by done.
    + by rewrite IH.
Qed.

Lemma dict_set_keys key v d :
  key ∈ d.*1 → (dict_set key v d).*1 = d.*1.
Proof.
  induction d as [|[k' x] d IH]; cbn [fmap list_fmap fst dict_set].
  - by intros ?%elem_of_nil.
  - intros Hin. destruct (decide (k' = key)) as [->|Hk]; [done|].
    cbn [fmap list_fmap fst]. f_equal. apply IH.
    apply elem_of_cons in Hin. naive_solver.
Qed.

(** X7: without the lookup the descriptor written for a term is the
    template with [label] set to the lower-cased term and every other
    member, [sameAs] included, as the template has it; a template that
    has a [label] keeps the order of its members. *)
Theorem descriptor_without_lookup env key terms_counter term w :
  let end_ := generate_term env false key terms_counter term w in
  ∃ doc,
    fs end_.2 !! term_path env key term = Some (File (Json.dump (JObj doc)))
    ∧ dict_get "label" doc = Some (JStr (PyStr.lower term))
    ∧ (∀ k, k ≠ "label" → dict_get k doc = dict_get k (JSONLD_TEMPLATE env))
    ∧ ("label" ∈ (JSONLD_TEMPLATE env).*1 → doc.*1 = (JSONLD_TEMPLATE env).*1).
Proof.
  cbn zeta. rewrite generate_term_unfold, describe_unfold.
  exists (label_doc env term). split; [apply stored_lookup|].
  split; [apply dict_get_set|]. split.
  - intros k Hk. by apply dict_get_set_ne.
  - apply dict_set_keys.
Qed.

(** X8: when the service answers and a match is returned, the descriptor
    written for the term has [sameAs] set to that match, [label] set to
    the lower-cased term, and every other member as the template has
    it. *)
Theorem descriptor_with_lookup env key terms_counter term w ids match_ :
  api_key (api_key_file env (lookups w)) ≠ "" →
  requests_get env (lookups w)
    (lookup_url (PyStr.lower term) (api_key (api_key_file env (lookups w))))
    = Response ids →
  response_match ids = Ok match_ →
  let end_ := generate_term env true key terms_counter term w in
  ∃ doc,
    fs end_.2 !! term_path env key term = Some (File (Json.dump (JObj doc)))
    ∧ dict_get "sameAs" doc = Some (JStr match_)
    ∧ dict_get "label" doc = Some (JStr (PyStr.lower term))
    ∧ ∀ k, k ≠ "label" → k ≠ "sameAs" →
           dict_get k doc = dict_get k (JSONLD_TEMPLATE env).
Proof.
  intros Hkey Hget Hmatch. cbn zeta.
  rewrite generate_term_unfold, describe_unfold, get_api_response_unfold.
  cbn zeta. rewrite decide_False by done. rewrite Hget, Hmatch. cbn [json_of_value].
  exists (dict_set "sameAs" (JStr match_) (label_doc env term)).
  split; [apply stored_lookup|]. split; [apply dict_get_set|]. split.
  - rewrite dict_get_set_ne by done. apply dict_get_set.
  - intros k Hl Hs. unfold label_doc. by rewrite !dict_get_set_ne.
Qed.

(** The second of two InterLex entries ends up in [sameAs]. *)
Lemma descriptor_with_lookup_witness :
  ∃ doc,
    fs (generate_term (with_template two_interlex_ids) true "types" ∅ "MRI" initial).2
      !! "/scripts/types/Mri.jsonld" = Some (File (Json.dump (JObj doc)))
    ∧ dict_get "sameAs" doc = Some (JStr "http://uri.interlex.org/base/ilx_0777777")
    ∧ dict_get "label" doc = Some (JStr "mri")
    ∧ ∀ k, k ≠ "label" → k ≠ "sameAs" →
           dict_get k doc = dict_get k (JSONLD_TEMPLATE (with_template two_interlex_ids)).
Proof.
  refine (descriptor_with_lookup (with_template two_interlex_ids) "types" ∅ "MRI"
            initial two_interlex_ids _ _ eq_refl eq_refl).
  by vm_compute.
Defined.

(** ** What a run does to the world around it *)

Section RunInvariant.

Context {A S : Type} (R : world → world → Prop).

Hypothesis R_refl : ∀ w, R w w.
Hypothesis R_trans : ∀ w1 w2 w3, R w1 w2 → R w2 w3 → R w1 w3.

(** A relation every turn of a loop respects holds between the start
    and the end of the loop, however the loop ends. *)
Lemma for_respects (l : list A) (body : S → A → M S) acc w :
  (∀ acc x w, x ∈ l → R w (body acc x w).2) →
  R w (for_ l acc body w).2.
Proof.
  revert acc w. induction l as [|x l IH]; intros acc w Hbody; [apply R_refl|].
  rewrite for_cons. pose proof (Hbody acc x w (list_elem_of_here _ _)) as Hx.
  destruct (body acc x w) as [[acc'|e] w']; [|exact Hx].
  eapply R_trans; [exact Hx|]. apply IH.
  intros acc0 y w0 Hy. apply Hbody. by right.
Qed.

End RunInvariant.

Section Frame.

Variable env : environment.

Lemma get_api_response_fs term w : fs (get_api_response env term w).2 = fs w.
Proof.
  rewrite get_api_response_unfold. cbn zeta.
  destruct (decide _); [done|].
  destruct (requests_get _ _ _) as [e|e|ids]; [done|done|].
  by destruct (response_match ids).
Qed.

Lemma get_api_response_lookups term w :
  lookups (get_api_response env term w).2 = S (lookups w).
Proof.
  rewrite get_api_response_unfold. cbn zeta.
  destruct (decide _); [done|].
  destruct (requests_get _ _ _) as [e|e|ids]; [done|done|].
  by destruct (response_match ids).
Qed.

(** The file system after one term: as it was, if the lookup raised, or
    with the descriptor stored. *)
Lemma generate_term_fs use_api key c term w :
  fs (generate_term env use_api key c term w).2 = fs w
  ∨ ∃ doc, fs (generate_term env use_api key c term w).2
           = stored env key term doc (fs w).
Proof.
  rewrite generate_term_unfold, describe_unfold. destruct use_api.
  - pose proof (get_api_response_fs (PyStr.lower term) w) as Hfs.
    destruct (get_api_response _ _ _) as [[v|e] w']; cbn [snd fs] in *.
    + right. eexists. by rewrite Hfs.
    + by left.
  - right. by eexists.
Qed.

Lemma stored_dom key term doc m : dom m ⊆ dom (stored env key term doc m).
Proof.
  unfold stored. rewrite dom_insert_L.
  destruct (decide _); [set_solver|]. rewrite dom_insert_L. set_solver.
Qed.

Lemma stored_elsewhere key term doc m p :
  p ≠ term_directory env key → p ≠ term_path env key term →
  stored env key term doc m !! p = m !! p.
Proof.
  intros Hd Hp. unfold stored. rewrite lookup_insert_ne by done.
  destruct (decide _); [done|]. by rewrite lookup_insert_ne.
Qed.

Lemma generate_respects (R : world → world → Prop) r use_api w :
  (∀ w, R w w) →
  (∀ w1 w2 w3, R w1 w2 → R w2 w3 → R w1 w3) →
  (∀ w w', fs w' = fs w → R w w') →
  (∀ key e term c w, (key, e) ∈ r → term ∈ values e →
     R w (generate_term env use_api key c term w).2) →
  R w (generate_jsonld_files env r use_api w).2.
Proof.
  intros Hrefl Htrans Hfs Hterm. rewrite generate_jsonld_files_unfold.
  pose proof (for_respects R Hrefl Htrans r (generate_property env use_api) ∅ w) as Hloop.
  destruct (for_ r ∅ _ w) as [[c|e] w']; cbn [snd] in *.
  - apply (Htrans w w'); [|by apply Hfs]. apply Hloop.
    intros acc [key e] w0 Hin. unfold generate_property. cbn [fst snd].
    apply (for_respects R Hrefl Htrans). intros acc' t w1 Ht. by eapply Hterm.
  - apply Hloop. intros acc [key e'] w0 Hin. unfold generate_property. cbn [fst snd].
    apply (for_respects R Hrefl Htrans). intros acc' t w1 Ht. by eapply Hterm.
Qed.

End Frame.

(** X9: a run never removes anything: whatever path exists before it
    exists after it, with or without the lookup and however the run
    ends. *)
Theorem generate_keeps_paths env r use_api w :
  dom (fs w) ⊆ dom (fs (generate_jsonld_files env r use_api w).2).
Proof.
  apply (generate_respects env (fun w w' => dom (fs w) ⊆ dom (fs w'))).
  - done.
  - intros w1 w2 w3 H12 H23. set_solver.
  - intros w0 w' ->. done.
  - intros key e term c w0 _ _.
    destruct (generate_term_fs env use_api key c term w0) as [->|[doc ->]];
      [done|apply stored_dom].
Qed.

(** X10: on a report whose keys are among the six property names, run
    where the directory of the script exists, the generator changes
    nothing outside the directories of those properties and the
    descriptor paths of the terms. *)
Theorem generate_leaves_other_paths env r use_api w p :
  Forall (fun item => item.1 ∈ PROPERTIES) r →
  is_Some (fs w !! CURRENT_WORKING_DIR env) →
  p ∉ touched env r →
  fs (generate_jsonld_files env r use_api w).2 !! p = fs w !! p.
Proof.
  intros _ _ Hp.
  apply (generate_respects env (fun w w' => fs w' !! p = fs w !! p)).
  - done.
  - intros w1 w2 w3 H12 H23. congruence.
  - intros w0 w' ->. done.
  - intros key e term c w0 Hin Ht.
    assert (term_directory env key ∈ touched env r
            ∧ term_path env key term ∈ touched env r) as [Hd Hf].
    { unfold touched. rewrite !list_elem_of_In, !in_flat_map.
      split; exists (key, e); cbn [fst snd];
        (split; [by apply list_elem_of_In|]).
      - by left.
      - right. apply in_map. by apply list_elem_of_In. }
    destruct (generate_term_fs env use_api key c term w0) as [->|[doc ->]]; [done|].
    apply stored_elsewhere; intros ->; contradiction.
Qed.

(** A note beside the descriptors survives a run. *)
Lemma generate_leaves_other_paths_witness :
  fs (generate_jsonld_files offline hyphen_or_space false scripts_with_note).2
    !! "/scripts/notes.txt" = Some (File "keep me").
Proof.
  refine (generate_leaves_other_paths offline hyphen_or_space false scripts_with_note
            "/scripts/notes.txt" _ _ _).
  - apply (bool_decide_unpack _). by vm_compute.
  - by eexists.
  - apply (bool_decide_unpack _). by vm_compute.
Defined.

(** X11: without the lookup, a path that several terms of the report are
    written to holds, after the run, the descriptor of the last of them
    in report order. *)
Theorem generate_last_write_wins env r w p v :
  final p (writes_of env r) = Some v →
  fs (generate_jsonld_files env r false w).2 !! p = Some v.
Proof.
  intros Hfinal. destruct (generate_offline env r w) as [_ ->].
  by apply fold_perform_final.
Qed.

(** "CC-BY" and "CC BY" share [CcBy.jsonld]; the second one stays. *)
Lemma generate_last_write_wins_witness :
  fs (generate_jsonld_files offline hyphen_or_space false initial).2
    !! "/scripts/licenses/CcBy.jsonld"
  = Some (File (Json.dump (JObj [("label", JStr "cc by")]))).
Proof.
  refine (generate_last_write_wins offline hyphen_or_space initial
            "/scripts/licenses/CcBy.jsonld" _ _).
  by vm_compute.
Defined.

Section LookupCount.

Variable env : environment.

Lemma generate_term_lookups use_api key c term w :
  match generate_term env use_api key c term w with
  | (Ok _, w') => lookups w' = lookups w + (if use_api then 1 else 0)
  | (Raise _, _) => use_api = true
  end.
Proof.
  rewrite generate_term_unfold, describe_unfold. destruct use_api.
  - pose proof (get_api_response_lookups env (PyStr.lower term) w) as Hn.
    destruct (get_api_response _ _ _) as [[v|e] w']; [|done].
    cbn [snd lookups] in *. lia.
  - cbn [lookups]. lia.
Qed.

Lemma generate_terms_lookups use_api key ts c w :
  match for_ ts c (generate_term env use_api key) w with
  | (Ok _, w') => lookups w' = lookups w + (if use_api then List.length ts else 0)
  | (Raise _, _) => use_api = true
  end.
Proof.
  revert c w. induction ts as [|t ts IH]; intros c w.
  - rewrite for_nil. destruct use_api; cbn [List.length]; lia.
  - rewrite for_cons. pose proof (generate_term_lookups use_api key c t w) as Ht.
    destruct (generate_term _ _ _ _ _ _) as [[c1|e] w1]; [|done].
    specialize (IH c1 w1).
    destruct (for_ ts c1 _ w1) as [[c2|e] w2]; [|done].
    destruct use_api; cbn [List.length] in *; lia.
Qed.

Lemma generate_properties_lookups use_api r c w :
  match for_ r c (generate_property env use_api) w with
  | (Ok _, w') =>
      lookups w' = lookups w + (if use_api then List.length (all_terms r) else 0)
  | (Raise _, _) => use_api = true
  end.
Proof.
  revert c w. induction r as [|[key entry] r IH]; intros c w.
  - rewrite for_nil. destruct use_api; cbn; lia.
  - rewrite for_cons. unfold generate_property at 1. cbn [fst snd].
    pose proof (generate_terms_lookups use_api key (values entry) c w) as Ht.
    destruct (for_ (values entry) c _ w) as [[c1|e] w1]; [|done].
    specialize (IH c1 w1).
    destruct (for_ r c1 _ w1) as [[c2|e] w2]; [|done].
    unfold all_terms in *. cbn [flat_map snd]. rewrite length_app.
    destruct use_api; lia.
Qed.

End LookupCount.

(** X12: a run that returns has asked the service once for every term of
    the report, repeated terms included, when the lookup is on, and not
    at all when it is off. *)
Theorem generate_lookups_per_term env r use_api w v w' :
  generate_jsonld_files env r use_api w = (Ok v, w') →
  lookups w' = lookups w + (if use_api then List.length (all_terms r) else 0).
Proof.
  rewrite generate_jsonld_files_unfold.
  pose proof (generate_properties_lookups env use_api r ∅ w) as Hloop.
  destruct (for_ r ∅ _ w) as [[c|e] w1]; [|done]. by intros [= <- <-].
Qed.

(** Two terms, two requests. *)
Lemma generate_lookups_per_term_witness :
  lookups (generate_jsonld_files (answering []) privacy_two true initial).2 = 2.
Proof.
  assert (generate_jsonld_files (answering []) privacy_two true initial
          = (Ok VNone, (generate_jsonld_files (answering []) privacy_two true initial).2))
    as Hrun by (by vm_compute).
  exact (generate_lookups_per_term (answering []) privacy_two true initial VNone _ Hrun).
Defined.

(** ** The detector on any report *)

Lemma length_normalize terms :
  List.length (normalize terms)
  = List.length (distinct (map PyStr.lower terms)).
Proof. by rewrite normalize_groups, length_map. Qed.

Lemma find_duplicates_in_unfold r errors key w :
  find_duplicates_in r errors key w
  = (Ok (errors ++ messages_of r key),
     World (fs w) (log w ++ infos_of r key) (stdout w) (lookups w)).
Proof.
  unfold find_duplicates_in, messages_of, infos_of, counted_unique.
  destruct (report_get key r) as [e|].
  - rewrite length_normalize.
    destruct (decide _) as [Heq|Hne].
    + rewrite (proj2 (Z.eqb_eq _ _) Heq). by rewrite app_nil_r.
    + rewrite (proj2 (Z.eqb_neq _ _) Hne).
      rewrite duplicate_messages_collisions, app_nil_r. by destruct w.
  - rewrite !app_nil_r. by destruct w.
Qed.

Lemma find_duplicates_loop_unfold r keys errors w :
  for_ keys errors (find_duplicates_in r) w
  = (Ok (errors ++ flat_map (messages_of r) keys),
     World (fs w) (log w ++ flat_map (infos_of r) keys) (stdout w) (lookups w)).
Proof.
  revert errors w. induction keys as [|key keys IH]; intros errors w.
  - rewrite for_nil. cbn [flat_map]. rewrite !app_nil_r. by destruct w.
  - rewrite for_cons, find_duplicates_in_unfold, IH. cbn [flat_map fs log stdout lookups].
    by rewrite !app_assoc.
Qed.

(** X13: on any report the detector returns normally; it touches neither
    the file system nor the standard output; for each of the six
    properties present, in their fixed order, it either logs that all
    terms are unique, when the count equals the number of lower-cased
    forms, or else adds one message per group of colliding values. *)
Theorem find_duplicates_behaviour (r : report) w :
  find_duplicates r w
  = (Ok (flat_map (messages_of r) PROPERTIES),
     World (fs w) (log w ++ flat_map (infos_of r) PROPERTIES)
           (stdout w) (lookups w)).
Proof. unfold find_duplicates. by rewrite find_duplicates_loop_unfold. Qed.

(** X14: the detector trusts the count: when every property's count is
    the number of lower-cased forms of its values, no message is
    returned, even if values collide. *)
Theorem find_duplicates_trusts_count (r : report) w :
  (∀ key e, key ∈ PROPERTIES → report_get key r = Some e → counted_unique e = true) →
  (find_duplicates r w).1 = Ok [].
Proof.
  intros Hcount. unfold find_duplicates. rewrite find_duplicates_loop_unfold.
  cbn [fst app]. f_equal.
  induction PROPERTIES as [|key keys IH]; [done|]. cbn [flat_map].
  rewrite IH by (intros k e Hk; apply Hcount; by right).
  unfold messages_of. destruct (report_get key r) as [e|] eqn:He; [|done].
  by rewrite (Hcount key e (list_elem_of_here _ _) He).
Qed.

(** "Male" and "male" collide, the count says one form: no message. *)
Lemma find_duplicates_trusts_count_witness :
  collisions ["Male"; "male"] = [["Male"; "male"]]
  ∧ (find_duplicates miscounted initial).1 = Ok [].
Proof.
  split; [by vm_compute|].
  refine (find_duplicates_trusts_count miscounted initial _).
  intros key e _. unfold miscounted. cbn [report_get].
  case_decide; [|done]. by intros [= <-].
Defined.

Lemma file_term_rows k t d :
  concat (file_term k t d).*2 ≡ₚ t :: concat d.*2.
Proof.
  induction d as [|[k' v] d IH]; [done|]. cbn [file_term].
  destruct (decide (k' = k)) as [->|Hne]; cbn [fmap list_fmap snd concat].
  - rewrite <- app_assoc. cbn [app]. symmetry. apply Permutation_middle.
  - rewrite IH. symmetry. apply Permutation_middle.
Qed.

Lemma normalize_rows terms : concat (normalize terms).*2 ≡ₚ terms.
Proof.
  unfold normalize. induction terms as [|t terms IH] using rev_ind; [done|].
  rewrite fold_left_app. cbn [fold_left].
  rewrite file_term_rows, IH. apply Permutation_cons_append.
Qed.

Lemma keys_of_rows (V : string → list string) ks :
  (map (fun k => (k, V k)) ks).*1 = ks.
Proof. induction ks as [|k ks IH]; [done|]. cbn. by f_equal. Qed.

(** X15: the table built by lines 141-146 partitions the values: its
    keys are distinct, each row is non-empty and holds values whose
    lower-cased form is the row's key, and the rows together hold every
    value exactly as often as the list does. *)
Theorem normalize_partition terms :
  NoDup (normalize terms).*1
  ∧ Forall (fun kv => kv.2 ≠ [] ∧ Forall (fun t => PyStr.lower t = kv.1) kv.2)
           (normalize terms)
  ∧ concat (normalize terms).*2 ≡ₚ terms.
Proof.
  split; [|split; [|apply normalize_rows]].
  - rewrite normalize_groups, keys_of_rows. apply NoDup_distinct.
  - rewrite normalize_groups. apply Forall_forall. intros [k v] Hin.
    apply list_elem_of_fmap in Hin as (k' & [= -> ->] & Hk).
    apply (proj1 (elem_of_distinct _ _)) in Hk. cbn [fst snd]. split.
    + apply list_elem_of_fmap in Hk as (t & -> & Ht).
      intros Hnil. assert (t ∈ variants terms (PyStr.lower t)) as Hmem
        by (by apply list_elem_of_filter).
      rewrite Hnil in Hmem. by apply elem_of_nil in Hmem.
    + apply Forall_forall. intros t Ht. by apply list_elem_of_filter in Ht as [? _].
Qed.

(** ** The collector: errors, keys, and the detector on its report *)

Section EachRaises.

Context {A S : Type} (P : exn → Prop) (body : S → A → result S).

Hypothesis body_raises : ∀ acc x e, body acc x = Raise e → P e.

Lemma each_raises l acc e : each l acc body = Raise e → P e.
Proof.
  revert acc. induction l as [|x l IH]; intros acc; [done|].
  cbn [each]. unfold mbind, result_bind.
  destruct (body acc x) as [acc'|e'] eqn:Hx.
  - apply IH.
  - intros [= <-]. by eapply body_raises.
Qed.

End EachRaises.

Lemma item_raises {A} key (field : option A) e :
  item key field = Raise e → e = KeyError key.
Proof. destruct field; [done|]. by intros [= <-]. Qed.

Lemma set_of_item_raises {A} key (g : A → option string) l e :
  set_of (fun x => item key (g x)) l = Raise e → e = KeyError key.
Proof.
  apply (each_raises (fun e => e = KeyError key)). intros acc x e'.
  unfold mbind, result_bind. destruct (item key (g x)) eqn:Hi; [done|].
  intros [= <-]. by apply item_raises in Hi.
Qed.

Lemma datatype_values_raises typ e :
  datatype_values typ = Raise e → e = KeyError "value".
Proof.
  apply (each_raises (fun e => e = KeyError "value")). intros acc [name [a|]] e'.
  - cbn [snd]. unfold mbind, result_bind.
    destruct (item "value" (annotation_value a)) eqn:Hi; [done|].
    intros [= <-]. by apply item_raises in Hi.
  - done.
Qed.

Lemma visit_raises sel acc step e :
  visit sel acc step = Raise e → collector_error e = true.
Proof.
  destruct step as [[path dirs] files]. unfold visit.
  destruct (file_named "DATS.json" files) as [[|d]|]; [by intros [= <-]| |done].
  unfold mbind, result_bind.
  destruct (collect_types sel d _) as [tv|e1] eqn:Ht.
  2:{ intros [= <-]. unfold collect_types in Ht.
      destruct (sel_types sel); [|done]. unfold mbind, result_bind in Ht.
      destruct (item "types" (types d)) as [l|e2] eqn:Hi.
      - apply (each_raises (fun e => e = KeyError "value")) in Ht as ->; [done|].
        intros acc0 typ e3. destruct (datatype_values typ) eqn:Hd; [done|].
        intros [= <-]. by apply datatype_values_raises in Hd.
      - injection Ht as <-. by apply item_raises in Hi as ->. }
  destruct (collect_licenses sel d _) as [lv|e1] eqn:Hl.
  2:{ intros [= <-]. unfold collect_licenses in Hl.
      destruct (sel_licenses sel); [|done]. unfold mbind, result_bind in Hl.
      destruct (item "licenses" (licenses d)) as [l|e2] eqn:Hi.
      - destruct (set_of _ l) eqn:Hs; [done|]. injection Hl as <-.
        by apply set_of_item_raises in Hs as ->.
      - injection Hl as <-. by apply item_raises in Hi as ->. }
  destruct (collect_formats sel d _) as [fv|e1] eqn:Hf.
  2:{ intros [= <-]. unfold collect_formats in Hf.
      destruct (sel_formats sel); [|done]. unfold mbind, result_bind in Hf.
      destruct (item "distributions" (distributions d)) as [l|e2] eqn:Hi; [done|].
      injection Hf as <-. by apply item_raises in Hi as ->. }
  destruct (collect_keywords sel d _) as [kv|e1] eqn:Hk; [done|].
  intros [= <-]. unfold collect_keywords in Hk.
  destruct (sel_keywords sel); [|done]. unfold mbind, result_bind in Hk.
  destruct (item "keywords" (keywords d)) as [l|e2] eqn:Hi.
  - destruct (set_of _ l) eqn:Hs; [done|]. injection Hk as <-.
    by apply set_of_item_raises in Hs as ->.
  - injection Hk as <-. by apply item_raises in Hi as ->.
Qed.

(** X16: the collector returns a report exactly on a tree all of whose
    descriptors are well formed for the selected properties; otherwise
    it raises, with no partial report, a [JSONDecodeError] or the
    [KeyError] of a required key. *)
Theorem collect_values_outcome sel root t :
  match collect_values sel root t with
  | Ok _ => well_formed sel t = true
  | Raise e => well_formed sel t = false ∧ collector_error e = true
  end.
Proof.
  rewrite collect_values_unfold.
  pose proof (each_visit sel (walk root t) collected_empty) as Hwalk.
  rewrite walk_well_formed in Hwalk.
  destruct (each _ _ _) as [c|e] eqn:Heach; [by destruct Hwalk|].
  split; [done|].
  apply (each_raises (fun e => collector_error e = true)) in Heach; [done|].
  intros acc step e'. apply visit_raises.
Qed.

Example collect_values_unlicensed :
  collect_values everything "/projects" one_unlicensed_project
  = Raise (KeyError "licenses").
Proof. by vm_compute. Qed.

Lemma build_report_keys named : sublist (build_report named).*1 named.*1.
Proof.
  unfold build_report. induction named as [|[k s] named IH]; [done|].
  cbn [flat_map fst snd fmap list_fmap].
  destruct (decide (s = ∅)); cbn [app fmap list_fmap fst].
  - by apply sublist_cons.
  - by apply sublist_skip.
Qed.

(** X17: the keys of a report the collector returns are among the six
    property names, each at most once and in the order [privacy],
    [licenses], [types], [is_about], [formats], [keywords]. *)
Theorem collect_values_keys sel root t r n :
  collect_values sel root t = Ok (r, n) → sublist r.*1 PROPERTIES.
Proof.
  rewrite collect_values_unfold.
  destruct (each _ _ _) as [c|e]; [|done]. intros Heq.
  assert (r = build_report (named_sets c)) as -> by congruence.
  apply (build_report_keys (named_sets c)).
Qed.

Lemma collect_values_keys_witness : sublist projects_report.*1 PROPERTIES.
Proof.
  refine (collect_values_keys everything "/conp-dataset/projects" projects
            projects_report 2 _).
  by vm_compute.
Defined.

Lemma report_get_elem key (r : report) e : report_get key r = Some e → (key, e) ∈ r.
Proof.
  induction r as [|[k e'] r IH]; [done|]. cbn [report_get].
  destruct (decide (k = key)) as [->|Hne].
  - intros [= ->]. left.
  - intros He. right. by apply IH.
Qed.

(** X18: the detector run on the report the collector returns gives, for
    each property present, one message per group of two or more
    collected values that are alike once lower-cased. *)
Theorem find_duplicates_after_collect sel root t r n w :
  collect_values sel root t = Ok (r, n) →
  (find_duplicates r w).1
  = Ok (flat_map (fun key =>
          match report_get key r with
          | Some e => map (duplicate_message key) (collisions (values e))
          | None => []
          end) PROPERTIES).
Proof.
  rewrite collect_values_unfold.
  destruct (each _ _ _) as [c|e]; [|done]. intros Heq.
  assert (r = build_report (named_sets c)) as -> by congruence.
  unfold find_duplicates. apply find_duplicates_loop.
  intros key e He. apply report_get_elem, build_report_elem in He.
  by destruct He as (s & _ & _ & ->).
Qed.

(** The formats "nifti" and "NIfTI" of the sample projects are reported. *)
Lemma find_duplicates_after_collect_witness :
  (find_duplicates projects_report initial).1
  = Ok ["Formats duplicate terms: ['nifti', 'NIfTI']"].
Proof.
  refine (find_duplicates_after_collect everything "/conp-dataset/projects" projects
            projects_report 2 initial _).
  by vm_compute.
Defined.

(** ** The collector: where the values come from *)

Lemma each_item_union {A} key (g : A → option string) l (acc c : gset string) :
  each l acc (fun acc x => v ← item key (g x); mret ({[ v ]} ∪ acc)) = Ok c →
  c = acc ∪ list_to_set (omap g l).
Proof.
  revert acc. induction l as [|x l IH]; intros acc.
  - intros [= <-]. set_solver.
  - cbn [each omap list_omap]. unfold mbind at 1, result_bind at 1.
    destruct (g x) as [v|]; cbn [item]; [|done].
    unfold mbind at 1, result_bind at 1. cbn [mret result_ret].
    intros Hc%IH. rewrite Hc. set_solver.
Qed.

Lemma set_of_item {A} key (g : A → option string) l (vs : gset string) :
  set_of (fun x => item key (g x)) l = Ok vs → vs = list_to_set (omap g l).
Proof. intros Hs%each_item_union. rewrite Hs. set_solver. Qed.

Lemma datatype_values_union typ vs :
  datatype_values typ = Ok vs → vs = list_to_set (type_values typ).
Proof.
  unfold datatype_values, type_values.
  destruct typ as [[[[v1|]]|] [[[v2|]]|] [[[v3|]]|] [[[v4|]]|]];
    cbn [each snd item mbind result_bind mret result_ret annotation_value
         information method platform instrument omap list_omap option_bind];
    try done; intros [= <-]; set_solver.
Qed.

Section Gathering.

Variable sel : selection.

Lemma collect_privacy_union d c :
  collect_privacy sel d c
  = c ∪ (if sel_privacy sel then list_to_set (privacy_of d) else ∅).
Proof.
  unfold collect_privacy, privacy_of. destruct (sel_privacy sel); [|set_solver].
  destruct (privacy d); cbn; set_solver.
Qed.

Lemma collect_types_union d c c' :
  collect_types sel d c = Ok c' →
  c' = c ∪ (if sel_types sel then list_to_set (types_of d) else ∅).
Proof.
  unfold collect_types, types_of. destruct (sel_types sel).
  2:{ intros [= <-]. set_solver. }
  destruct (types d) as [l|]; [|done]. cbn [item default from_option id].
  unfold mbind at 1, result_bind at 1. revert c.
  induction l as [|typ l IH]; intros c.
  - intros [= <-]. set_solver.
  - cbn [each flat_map]. unfold mbind at 1, result_bind at 1.
    unfold mbind at 1, result_bind at 1.
    destruct (datatype_values typ) as [vs|] eqn:Hd; [|done].
    apply datatype_values_union in Hd as ->. cbn [mret result_ret].
    intros Hc%IH. rewrite Hc, list_to_set_app_L. set_solver.
Qed.

Lemma collect_licenses_union d c c' :
  collect_licenses sel d c = Ok c' →
  c' = c ∪ (if sel_licenses sel then list_to_set (licenses_of d) else ∅).
Proof.
  unfold collect_licenses, licenses_of. destruct (sel_licenses sel).
  2:{ intros [= <-]. set_solver. }
  destruct (licenses d) as [l|]; [|done]. cbn [item default from_option id].
  unfold mbind, result_bind.
  destruct (set_of _ l) as [vs|] eqn:Hs; [|done].
  apply set_of_item in Hs as ->. by intros [= <-].
Qed.

Lemma collect_is_about_union d c :
  collect_is_about sel d c
  = c ∪ (if sel_is_about sel then list_to_set (about_of d) else ∅).
Proof.
  unfold collect_is_about, about_of. destruct (sel_is_about sel); [|set_solver].
  destruct (isAbout d) as [l|]; cbn [default from_option id flat_map]; [|set_solver].
  revert c. induction l as [|a l IH]; intros c; cbn [fold_left flat_map].
  - set_solver.
  - rewrite IH, list_to_set_app_L. unfold about_text.
    destruct (about_name a), (about_value a); set_solver.
Qed.

Lemma collect_formats_union d c c' :
  collect_formats sel d c = Ok c' →
  c' = c ∪ (if sel_formats sel then list_to_set (formats_of d) else ∅).
Proof.
  unfold collect_formats, formats_of. destruct (sel_formats sel).
  2:{ intros [= <-]. set_solver. }
  destruct (distributions d) as [l|]; [|done]. cbn [item default from_option id].
  unfold mbind, result_bind. intros [= <-].
  revert c. induction l as [|dist l IH]; intros c; cbn [fold_left flat_map].
  - set_solver.
  - rewrite IH, list_to_set_app_L.
    destruct (formats dist); cbn [default from_option id]; set_solver.
Qed.

Lemma collect_keywords_union d c c' :
  collect_keywords sel d c = Ok c' →
  c' = c ∪ (if sel_keywords sel then list_to_set (keywords_of d) else ∅).
Proof.
  unfold collect_keywords, keywords_of. destruct (sel_keywords sel).
  2:{ intros [= <-]. set_solver. }
  destruct (keywords d) as [l|]; [|done]. cbn [item default from_option id].
  unfold mbind, result_bind.
  destruct (set_of _ l) as [vs|] eqn:Hs; [|done].
  apply set_of_item in Hs as ->. by intros [= <-].
Qed.

(** One step adds, to each set, what its descriptor says under a
    selected property. *)
Lemma visit_gathers acc step c key :
  visit sel acc step = Ok c →
  found c key = found acc key ∪ gathered sel key (descriptor_in step.2).
Proof.
  destruct step as [[path dirs] files]. unfold visit, descriptor_in. cbn [snd].
  destruct (file_named "DATS.json" files) as [[|d]|]; [done| |].
  2:{ intros [= <-]. unfold gathered. destruct (selected sel key); set_solver. }
  unfold mbind, result_bind.
  destruct (collect_types sel d _) as [tv|] eqn:Ht; [|done].
  destruct (collect_licenses sel d _) as [lv|] eqn:Hl; [|done].
  destruct (collect_formats sel d _) as [fv|] eqn:Hf; [|done].
  destruct (collect_keywords sel d _) as [kv|] eqn:Hk; [|done].
  intros [= <-].
  apply collect_types_union in Ht as ->. apply collect_licenses_union in Hl as ->.
  apply collect_formats_union in Hf as ->. apply collect_keywords_union in Hk as ->.
  rewrite collect_privacy_union, collect_is_about_union.
  unfold found, gathered, selected, values_of, named_sets.
  cbn [assoc flat_map privacy_values licenses_values types_datatype_values
       is_about_values distributions_formats keywords_values].
  repeat (case_decide; [cbn [default from_option id]; rewrite app_nil_r;
                        match goal with |- context [if ?b then _ else _] =>
                          destruct b end; set_solver|]).
  cbn [default from_option id]. set_solver.
Qed.

Lemma each_visit_gathers steps acc c key :
  each steps acc (visit sel) = Ok c →
  found c key
  = found acc key ∪ gathered sel key (flat_map (fun step => descriptor_in step.2) steps).
Proof.
  revert acc. induction steps as [|step steps IH]; intros acc.
  - intros [= <-]. unfold gathered. destruct (selected sel key); set_solver.
  - cbn [each flat_map]. unfold mbind, result_bind.
    destruct (visit sel acc step) as [acc'|] eqn:Hv; [|done].
    intros Hc%IH. rewrite Hc, (visit_gathers _ _ _ _ Hv).
    unfold gathered. destruct (selected sel key); [|set_solver].
    rewrite flat_map_app, list_to_set_app_L. set_solver.
Qed.

End Gathering.

Lemma walk_descriptors t :
  ∀ root, flat_map (fun step => descriptor_in step.2) (walk root t)
          = tree_descriptors t.
Proof.
  induction t as [files subdirs IH] using tree_nested_ind. intros root.
  cbn [walk tree_descriptors flat_map snd]. f_equal.
  induction IH as [|[name t] subdirs Ht _ IHs]; [done|].
  cbn [flat_map snd]. by rewrite flat_map_app, Ht, IHs.
Qed.

Lemma found_empty key : found collected_empty key = ∅.
Proof.
  unfold found, named_sets. cbn [assoc privacy_values licenses_values
    types_datatype_values is_about_values distributions_formats keywords_values].
  repeat (case_decide; [done|]). done.
Qed.

(** The sets of a finished walk, in terms of the tree. *)
Lemma collect_values_found sel root t c key :
  each (walk root t) collected_empty (visit sel) = Ok c →
  found c key = gathered sel key (tree_descriptors t).
Proof.
  intros Hc%(each_visit_gathers sel _ _ _ key).
  rewrite Hc, found_empty, walk_descriptors. set_solver.
Qed.

Lemma report_values sel root t r n key :
  collect_values sel root t = Ok (r, n) →
  report_get key r
  = if decide (gathered sel key (tree_descriptors t) = ∅) then None
    else Some (ReportEntry (Z.of_nat (size (gathered sel key (tree_descriptors t))))
                           (elements (gathered sel key (tree_descriptors t)))).
Proof.
  rewrite collect_values_unfold.
  destruct (each _ _ _) as [c|e] eqn:Hc; [|done]. intros Heq.
  assert (r = build_report (named_sets c)) as -> by congruence.
  rewrite build_report_get by apply named_sets_keys.
  rewrite <- (collect_values_found sel root t c key Hc). unfold found.
  destruct (assoc key (named_sets c)) as [s|]; [done|].
  cbn [default from_option id]. by rewrite decide_True.
Qed.

(** X19: a value is listed under a property of the report exactly when
    the property is selected and some descriptor of the tree has that
    value under it: nothing is lost and nothing is made up. *)
Theorem collect_values_sound_complete sel root t r n key v :
  collect_values sel root t = Ok (r, n) →
  (∃ e, report_get key r = Some e ∧ v ∈ values e)
  ↔ selected sel key = true
    ∧ ∃ d, d ∈ tree_descriptors t ∧ v ∈ values_of d key.
Proof.
  intros Hrun. rewrite (report_values sel root t r n key Hrun).
  assert (v ∈ gathered sel key (tree_descriptors t)
          ↔ selected sel key = true
            ∧ ∃ d, d ∈ tree_descriptors t ∧ v ∈ values_of d key) as Hmem.
  { unfold gathered. destruct (selected sel key).
    - rewrite elem_of_list_to_set, list_elem_of_In, in_flat_map.
      setoid_rewrite <- list_elem_of_In. naive_solver.
    - rewrite elem_of_empty. naive_solver. }
  rewrite <- Hmem. destruct (decide _) as [Hempty|Hne].
  - rewrite Hempty, elem_of_empty. naive_solver.
  - split.
    + intros (e & [= <-] & Hv). cbn [values] in Hv. by apply elem_of_elements in Hv.
    + intros Hv. eexists. split; [done|]. cbn [values]. by apply elem_of_elements.
Qed.

(** "Homo sapiens", the value of a subject without a name, is listed. *)
Lemma collect_values_sound_complete_witness :
  ∃ e, report_get "is_about" projects_report = Some e ∧ "Homo sapiens" ∈ values e.
Proof.
  assert (collect_values everything "/conp-dataset/projects" projects
          = Ok (projects_report, 2)) as Hrun by (by vm_compute).
  apply (proj2 (collect_values_sound_complete everything "/conp-dataset/projects"
                  projects projects_report 2 "is_about" "Homo sapiens" Hrun)).
  split; [done|]. exists prevent_ad. split; [left|].
  apply (bool_decide_unpack _). by vm_compute.
Defined.

(** X20: a property that is not selected never appears in the report,
    whatever the descriptors hold. *)
Theorem collect_values_deselected sel root t r n key :
  collect_values sel root t = Ok (r, n) →
  selected sel key = false →
  report_get key r = None.
Proof.
  intros Hrun Hsel. rewrite (report_values sel root t r n key Hrun).
  unfold gathered. rewrite Hsel. by rewrite decide_True.
Qed.

Lemma collect_values_deselected_witness :
  collect_values no_keywords "/conp-dataset/projects" projects
  = Ok (take 5 projects_report, 2)
  ∧ report_get "keywords" (take 5 projects_report) = None.
Proof.
  assert (collect_values no_keywords "/conp-dataset/projects" projects
          = Ok (take 5 projects_report, 2)) as Hrun by (by vm_compute).
  split; [exact Hrun|].
  exact (collect_values_deselected no_keywords "/conp-dataset/projects" projects
           (take 5 projects_report) 2 "keywords" Hrun eq_refl).
Defined.

(** ** What a lookup can return *)

Lemma select_match_among ids match_ m :
  select_match ids match_ = Ok m →
  m = match_ ∨ ∃ i, i ∈ ids ∧ has_ilx_curie i = true ∧ iri i = Some m.
Proof.
  revert match_. induction ids as [|i ids IH]; intros match_; simpl.
  - intros [= <-]. by left.
  - destruct (has_ilx_curie i) eqn:Hc.
    + destruct (iri i) as [u|] eqn:Hu; [|done].
      intros [->|(j & Hj & Hcj & Hij)]%IH.
      * right. exists i. split; [left|done].
      * right. exists j. split; [by right|done].
    + intros [->|(j & Hj & Hcj & Hij)]%IH; [by left|].
      right. exists j. split; [by right|done].
Qed.

(** X21: the string a lookup returns for a decoded response is the
    sentinel, for an empty list, and otherwise the empty string or the
    [iri] of an entry of the list that passes the test of line 50. *)
Theorem response_match_among ids m :
  response_match ids = Ok m →
  (ids = [] ∧ m = no_match_found)
  ∨ (ids ≠ [] ∧ (m = "" ∨ ∃ i, i ∈ ids ∧ has_ilx_curie i = true ∧ iri i = Some m)).
Proof.
  unfold response_match. destruct ids as [|i ids].
  - intros [= <-]. by left.
  - intros Hm%select_match_among. right. split; [done|exact Hm].
Qed.

Lemma response_match_among_witness :
  (two_interlex_ids = []
   ∧ "http://uri.interlex.org/base/ilx_0777777" = no_match_found)
  ∨ (two_interlex_ids ≠ []
     ∧ ("http://uri.interlex.org/base/ilx_0777777" = ""
        ∨ ∃ i, i ∈ two_interlex_ids ∧ has_ilx_curie i = true
               ∧ iri i = Some "http://uri.interlex.org/base/ilx_0777777")).
Proof.
  exact (response_match_among two_interlex_ids
           "http://uri.interlex.org/base/ilx_0777777" eq_refl).
Defined.
